(** * Dev_Events: Event / Booking models and the cached database connection

    A shallow embedding of
    - the Event model's [slugify], [normalizeDate], [normalizeTime] and its
      pre-validate hook,
    - the Booking model's pre-save hook,
    - [connectToDatabase] and its process-wide cache,
    together with the properties stated about them.

    JavaScript strings are sequences of UTF-16 code units; they are modelled
    as [list N].  The few places where the result of a built-in depends on
    the host (case mapping of non-ASCII text, date formats other than the
    date-only forms of the language standard) are section variables, so every
    statement holds for every host. *)

From Stdlib Require Import ZArith NArith List String Ascii Bool Lia.
From stdpp Require Import base gmap strings list.
Import ListNotations.

(** ** JavaScript strings *)

Module JS.
Local Open Scope N_scope.

Definition jsstring := list N.

(** An ASCII literal as a sequence of code units. *)
Fixpoint js (s : string) : jsstring :=
  match s with
  | EmptyString => []
  | String a r => N_of_ascii a :: js r
  end.

(** The code points removed by [String.prototype.trim]: WhiteSpace and
    LineTerminator. *)
Definition is_whitespace (c : N) : bool :=
  (c =? 9) || (c =? 10) || (c =? 11) || (c =? 12) || (c =? 13) || (c =? 32)
  || (c =? 160) || (c =? 5760) || ((8192 <=? c) && (c <=? 8202))
  || (c =? 8232) || (c =? 8233) || (c =? 8239) || (c =? 8287)
  || (c =? 12288) || (c =? 65279).

Fixpoint drop_while (p : N -> bool) (s : jsstring) : jsstring :=
  match s with
  | [] => []
  | c :: r => if p c then drop_while p r else s
  end.

Definition trimStart (s : jsstring) : jsstring := drop_while is_whitespace s.

Fixpoint trimEnd (s : jsstring) : jsstring :=
  match s with
  | [] => []
  | c :: r =>
      match trimEnd r with
      | [] => if is_whitespace c then [] else [c]
      | r' => c :: r'
      end
  end.

Definition trim (s : jsstring) : jsstring := trimEnd (trimStart s).

Definition is_upper (c : N) : bool := (65 <=? c) && (c <=? 90).
Definition is_lower (c : N) : bool := (97 <=? c) && (c <=? 122).
Definition is_digit (c : N) : bool := (48 <=? c) && (c <=? 57).

(** The character class [a-z0-9] of the slug pattern. *)
Definition is_az09 (c : N) : bool := is_lower c || is_digit c.

(** ASCII letter or digit. *)
Definition is_alnum (c : N) : bool := is_upper c || is_az09 c.

Definition ascii_lower (c : N) : N := if is_upper c then c + 32 else c.

Section ToLowerCase.
(** [String.prototype.toLowerCase] maps the string unit by unit, in order.
    ASCII units are mapped without regard to context; the image of a
    non-ASCII unit (which may depend on what precedes and follows it, and
    may be several units or none) is the host's Unicode table. *)
Variable lower_ext : jsstring -> N -> jsstring -> jsstring.

Fixpoint toLowerCase_from (before : jsstring) (s : jsstring) : jsstring :=
  match s with
  | [] => []
  | c :: r =>
      (if c <? 128 then [ascii_lower c] else lower_ext before c r)
        ++ toLowerCase_from (before ++ [c]) r
  end.

Definition toLowerCase (s : jsstring) : jsstring := toLowerCase_from [] s.
End ToLowerCase.

Definition hyphen : N := 45.
Definition is_hyphen (c : N) : bool := c =? hyphen.

(** [s.replace(/[^a-z0-9]+/g, '-')]: scanning left to right, every maximal
    run of units outside [a-z0-9] is replaced by one hyphen.  [in_run] tells
    that the scan is inside a run whose hyphen is already written. *)
Fixpoint replace_runs (in_run : bool) (s : jsstring) : jsstring :=
  match s with
  | [] => []
  | c :: r =>
      if is_az09 c then c :: replace_runs false r
      else if in_run then replace_runs true r
      else hyphen :: replace_runs true r
  end.

(** The second alternative of [/^-+|-+$/g], tried at every position after
    the start: a non-empty run of hyphens that reaches the end. *)
Fixpoint strip_trailing_hyphens (s : jsstring) : jsstring :=
  match s with
  | [] => []
  | c :: r =>
      if is_hyphen c && forallb is_hyphen r then []
      else c :: strip_trailing_hyphens r
  end.

(** [s.replace(/^-+|-+$/g, '')]. *)
Definition strip_edge_hyphens (s : jsstring) : jsstring :=
  strip_trailing_hyphens (drop_while is_hyphen s).

Definition colon : N := 58.

(** [Number(s)] on a string of decimal digits. *)
Definition Number_of_digits (s : jsstring) : N :=
  fold_left (fun acc c => 10 * acc + (c - 48)) s 0.

Fixpoint uint_units (u : Decimal.uint) : jsstring :=
  match u with
  | Decimal.Nil => []
  | Decimal.D0 r => 48 :: uint_units r
  | Decimal.D1 r => 49 :: uint_units r
  | Decimal.D2 r => 50 :: uint_units r
  | Decimal.D3 r => 51 :: uint_units r
  | Decimal.D4 r => 52 :: uint_units r
  | Decimal.D5 r => 53 :: uint_units r
  | Decimal.D6 r => 54 :: uint_units r
  | Decimal.D7 r => 55 :: uint_units r
  | Decimal.D8 r => 56 :: uint_units r
  | Decimal.D9 r => 57 :: uint_units r
  end.

(** [n.toString()] for a non-negative integer: decimal, no leading zero. *)
Definition Number_toString (n : N) : jsstring := uint_units (N.to_uint n).

(** [s.padStart(len, fill)] with a one-unit fill string. *)
Definition padStart (len : nat) (fill : N) (s : jsstring) : jsstring :=
  repeat fill (len - length s) ++ s.

(** [s.split(sep)[0]] with a one-unit separator: the part of [s] before the
    first separator, all of [s] when there is none. *)
Fixpoint split_head (sep : N) (s : jsstring) : jsstring :=
  match s with
  | [] => []
  | c :: r => if c =? sep then [] else c :: split_head sep r
  end.

(** *** Shapes of strings, used to state what [slugify] returns *)

(** A unit that may occur in a slug. *)
Definition slug_unit (c : N) : bool := is_az09 c || is_hyphen c.

Definition starts_with_hyphen (s : jsstring) : bool :=
  match s with
  | c :: _ => is_hyphen c
  | [] => false
  end.

Fixpoint ends_with_hyphen (s : jsstring) : bool :=
  match s with
  | [] => false
  | c :: r =>
      match r with
      | [] => is_hyphen c
      | _ => ends_with_hyphen r
      end
  end.

Fixpoint no_double_hyphen (s : jsstring) : bool :=
  match s with
  | [] => true
  | c :: r =>
      match r with
      | c' :: _ => negb (is_hyphen c && is_hyphen c')
      | [] => true
      end && no_double_hyphen r
  end.

(** A word: one or more units of [a-z0-9]. *)
Definition word (w : jsstring) : Prop :=
  w <> [] /\ Forall (fun c => is_az09 c = true) w.

(** Words joined by single hyphens. *)
Fixpoint join_hyphen (words : list jsstring) : jsstring :=
  match words with
  | [] => []
  | w :: ws =>
      match ws with
      | [] => w
      | _ => w ++ hyphen :: join_hyphen ws
      end
  end.

(** Thrown [Error] objects, told apart by their message. *)
Inductive error : Type := Error (message : string).

Inductive result (A : Type) : Type :=
  | Ok (a : A)
  | Throw (e : error).
Arguments Ok {A} a.
Arguments Throw {A} e.

End JS.

(** ** The built-in Date object *)

Module JSDate.
Import JS.
Local Open Scope Z_scope.

Definition msPerDay : Z := 86400000.
Definition msPerHour : Z := 3600000.
Definition msPerMinute : Z := 60000.
Definition msPerSecond : Z := 1000.

Definition Day (t : Z) : Z := t / msPerDay.

Definition is_leap (y : Z) : bool :=
  (y mod 4 =? 0) && (negb (y mod 100 =? 0) || (y mod 400 =? 0)).
Definition leap_days (y : Z) : Z := if is_leap y then 1 else 0.
Definition DaysInYear (y : Z) : Z := 365 + leap_days y.

Definition DayFromYear (y : Z) : Z :=
  365 * (y - 1970) + (y - 1969) / 4 - (y - 1901) / 100 + (y - 1601) / 400.

(** The year of day number [d]: the largest [y] with [DayFromYear y <= d],
    found from the mean year length and one adjustment. *)
Definition YearFromDay (d : Z) : Z :=
  let y := 1970 + (400 * d) / 146097 in
  if d <? DayFromYear y then y - 1
  else if DayFromYear (y + 1) <=? d then y + 1
  else y.

Definition YearFromTime (t : Z) : Z := YearFromDay (Day t).
Definition DayWithinYear (t : Z) : Z := Day t - DayFromYear (YearFromTime t).

(** Number of days of the year before month [m] (0 = January); [l] is 1 in
    a leap year. *)
Definition month_start (l m : Z) : Z :=
  match m with
  | 0 => 0 | 1 => 31 | 2 => 59 + l | 3 => 90 + l | 4 => 120 + l
  | 5 => 151 + l | 6 => 181 + l | 7 => 212 + l | 8 => 243 + l
  | 9 => 273 + l | 10 => 304 + l | 11 => 334 + l | _ => 365 + l
  end.

Definition month_of_day (l dwy : Z) : Z :=
  if dwy <? month_start l 1 then 0
  else if dwy <? month_start l 2 then 1
  else if dwy <? month_start l 3 then 2
  else if dwy <? month_start l 4 then 3
  else if dwy <? month_start l 5 then 4
  else if dwy <? month_start l 6 then 5
  else if dwy <? month_start l 7 then 6
  else if dwy <? month_start l 8 then 7
  else if dwy <? month_start l 9 then 8
  else if dwy <? month_start l 10 then 9
  else if dwy <? month_start l 11 then 10
  else 11.

Definition MonthFromTime (t : Z) : Z :=
  month_of_day (leap_days (YearFromTime t)) (DayWithinYear t).

Definition DateFromTime (t : Z) : Z :=
  DayWithinYear t
  - month_start (leap_days (YearFromTime t)) (MonthFromTime t) + 1.

Definition HourFromTime (t : Z) : Z := (t / msPerHour) mod 24.
Definition MinFromTime (t : Z) : Z := (t / msPerMinute) mod 60.
Definition SecFromTime (t : Z) : Z := (t / msPerSecond) mod 60.
Definition msFromTime (t : Z) : Z := t mod msPerSecond.

Definition DaysInMonth (y m : Z) : Z :=
  month_start (leap_days y) (m + 1) - month_start (leap_days y) m.

(** [MakeDay(year, month, date)] with [month] in 0..11. *)
Definition MakeDay (y m dt : Z) : Z :=
  DayFromYear y + month_start (leap_days y) m + dt - 1.

Definition MakeDate (day time : Z) : Z := day * msPerDay + time.

(** A time value is [Some t], or [None] for NaN. *)
Definition TimeClip (t : option Z) : option Z :=
  match t with
  | Some v => if 8640000000000000 <? Z.abs v then None else Some v
  | None => None
  end.

(** *** Parsing: the date-only forms of the Date Time String Format *)

Definition digit_value (c : N) : Z := Z.of_N c - 48.

(** Exactly [n] decimal digits. *)
Fixpoint parse_digits (n : nat) (acc : Z) (s : jsstring)
  : option (Z * jsstring) :=
  match n with
  | O => Some (acc, s)
  | S n' =>
      match s with
      | c :: r =>
          if is_digit c then parse_digits n' (10 * acc + digit_value c) r
          else None
      | [] => None
      end
  end.

(** [YYYY], or an expanded year [+YYYYYY] / [-YYYYYY]; [-000000] is not a
    year. *)
Definition parse_year (s : jsstring) : option (Z * jsstring) :=
  match s with
  | c :: r =>
      if (c =? 43)%N then parse_digits 6 0 r
      else if (c =? 45)%N then
        match parse_digits 6 0 r with
        | Some (v, r') => if v =? 0 then None else Some (- v, r')
        | None => None
        end
      else parse_digits 4 0 s
  | [] => None
  end.

(** After the year: nothing, [-MM] or [-MM-DD].  Returns month (1..12) and
    day of month. *)
Definition parse_month_day (s : jsstring) : option (Z * Z) :=
  match s with
  | [] => Some (1, 1)
  | c :: r =>
      if (c =? 45)%N then
        match parse_digits 2 0 r with
        | Some (m, []) => Some (m, 1)
        | Some (m, c' :: r') =>
            if (c' =? 45)%N then
              match parse_digits 2 0 r' with
              | Some (d, []) => Some (m, d)
              | _ => None
              end
            else None
        | None => None
        end
      else None
  end.

(** A date-only string naming a day that exists; its time value is midnight
    UTC of that day. *)
Definition parse_date_only (s : jsstring) : option Z :=
  match parse_year s with
  | Some (y, r) =>
      match parse_month_day r with
      | Some (m, d) =>
          if (1 <=? m) && (m <=? 12) && (1 <=? d)
             && (d <=? DaysInMonth y (m - 1))
          then Some (MakeDate (MakeDay y (m - 1) d) 0)
          else None
      | None => None
      end
  | None => None
  end.

(** The decimal digit of the units of [n]. *)
Definition digit_unit (n : Z) : N := Z.to_N (48 + n mod 10).

(** [n] as exactly [w] decimal digits. *)
Fixpoint digits (w : nat) (n : Z) : jsstring :=
  match w with
  | O => []
  | S w' => digits w' (n / 10) ++ [digit_unit n]
  end.

Definition year_string (y : Z) : jsstring :=
  if (0 <=? y) && (y <=? 9999) then digits 4 y
  else (if y <? 0 then 45%N else 43%N) :: digits 6 (Z.abs y).

(** The [YYYY-MM-DD] (or expanded-year) prefix of [toISOString]. *)
Definition date_string (t : Z) : jsstring :=
  year_string (YearFromTime t) ++ [45%N] ++ digits 2 (MonthFromTime t + 1)
    ++ [45%N] ++ digits 2 (DateFromTime t).

Definition time_string (t : Z) : jsstring :=
  digits 2 (HourFromTime t) ++ [58%N] ++ digits 2 (MinFromTime t)
    ++ [58%N] ++ digits 2 (SecFromTime t) ++ [46%N] ++ digits 3 (msFromTime t).

(** [Date.prototype.toISOString] on a valid time value. *)
Definition toISOString (t : Z) : jsstring :=
  date_string t ++ [84%N] ++ time_string t ++ [90%N].

(** The form [YYYY-MM-DD]: four digits, two digits, two digits. *)
Definition is_YYYY_MM_DD (s : jsstring) : bool :=
  match s with
  | [y1; y2; y3; y4; h1; m1; m2; h2; d1; d2] =>
      is_digit y1 && is_digit y2 && is_digit y3 && is_digit y4
      && is_hyphen h1 && is_digit m1 && is_digit m2
      && is_hyphen h2 && is_digit d1 && is_digit d2
  | _ => false
  end.

Section DateConstructor.
(** What the host's [Date.parse] makes of a string that is not one of the
    date-only forms above: date-time forms (read in the host's time zone
    when they carry no offset) and the implementation's own formats. *)
Variable host_parse : jsstring -> option Z.

Definition Date_parse (s : jsstring) : option Z :=
  match parse_date_only s with
  | Some t => Some t
  | None => host_parse s
  end.

(** [new Date(s).getTime()]. *)
Definition Date_of_string (s : jsstring) : option Z :=
  TimeClip (Date_parse s).
End DateConstructor.

End JSDate.

(** ** Hooks: state passing with thrown errors *)

Module Hook.
Import JS.

(** A computation over a state ['S] that returns or throws. *)
Definition hook (S A : Type) : Type := S -> S * result A.

Definition ret {S A} (a : A) : hook S A := fun s => (s, Ok a).
Definition throw {S A} (e : error) : hook S A := fun s => (s, Throw e).
Definition lift {S A} (r : result A) : hook S A := fun s => (s, r).
Definition get {S} : hook S S := fun s => (s, Ok s).
Definition modify {S} (f : S -> S) : hook S unit := fun s => (f s, Ok tt).

Definition bind {S A B} (m : hook S A) (k : A -> hook S B) : hook S B :=
  fun s =>
    match m s with
    | (s', Ok a) => k a s'
    | (s', Throw e) => (s', Throw e)
    end.

Module Notations.
Notation "'do' x <- m ;; k" := (bind m (fun x => k))
  (at level 10, x name, m at level 99, k at level 200).
End Notations.

End Hook.

(** ** The Event model *)

Module EventModel.
Import JS JSDate Hook Hook.Notations.
Local Open Scope N_scope.

Section Host.
Variable lower_ext : jsstring -> N -> jsstring -> jsstring.
Variable host_parse : jsstring -> option Z.

Definition slugify (title : jsstring) : jsstring :=
  strip_edge_hyphens
    (replace_runs false (trim (toLowerCase lower_ext title))).

Definition normalizeDate (dateInput : jsstring) : result jsstring :=
  match Date_of_string host_parse dateInput with
  | None => Throw (Error "Invalid event date")
  | Some parsed => Ok (split_head 84 (toISOString parsed))
  end.

(** [s.match(/^(\d{1,2}):(\d{2})$/)]: the two captured groups. *)
Definition match_time (s : jsstring) : option (jsstring * jsstring) :=
  match s with
  | [h1; c; m1; m2] =>
      if is_digit h1 && (c =? colon) && is_digit m1 && is_digit m2
      then Some ([h1], [m1; m2]) else None
  | [h1; h2; c; m1; m2] =>
      if is_digit h1 && is_digit h2 && (c =? colon)
         && is_digit m1 && is_digit m2
      then Some ([h1; h2], [m1; m2]) else None
  | _ => None
  end.

Definition normalizeTime (timeInput : jsstring) : result jsstring :=
  let trimmed := trim timeInput in
  match match_time trimmed with
  | None => Throw (Error "Invalid event time format. Expected HH:MM")
  | Some (g1, g2) =>
      let hours := Number_of_digits g1 in
      let minutes := Number_of_digits g2 in
      if (hours <? 0) || (23 <? hours) || (minutes <? 0) || (59 <? minutes)
      then Throw (Error "Invalid event time value")
      else
        let normalizedHours := padStart 2 48 (Number_toString hours) in
        let normalizedMinutes := padStart 2 48 (Number_toString minutes) in
        Ok (normalizedHours ++ [colon] ++ normalizedMinutes)
  end.

(** An Event document: its fields, and the change tracking the hook reads
    ([isNew], [isModified]).  The fields hold strings, as [EventAttributes]
    declares them; a document in which [title], [date] or [time] is absent
    is not described. *)
Record EventDocument : Type := {
  title : jsstring;
  slug : jsstring;
  description : jsstring;
  overview : jsstring;
  image : jsstring;
  venue : jsstring;
  location : jsstring;
  date : jsstring;
  time : jsstring;
  mode : jsstring;
  audience : jsstring;
  agenda : list jsstring;
  organizer : jsstring;
  tags : list jsstring;
  isNew : bool;
  modifiedPaths : gset string
}.

Definition isModified (path : string) (d : EventDocument) : bool :=
  bool_decide (path ∈ modifiedPaths d).

(** Assigning a field marks its path modified when the document is new or
    the value changes.  (Mongoose also clears the mark of a path that is
    assigned its last saved value.  The hook reads the mark of a path before
    it assigns that path and assigns no path whose mark it reads later, so
    what it does to the fields does not depend on this.) *)
Definition mark (path : string) (changed : bool) (d : EventDocument)
  : gset string :=
  if isNew d || changed then {[ path ]} ∪ modifiedPaths d
  else modifiedPaths d.

(** [this.slug = v]; the schema's [trim] setter is applied to the value. *)
Definition assign_slug (v : jsstring) (d : EventDocument) : EventDocument :=
  let v' := trim v in
  {| title := title d; slug := v'; description := description d;
     overview := overview d; image := image d; venue := venue d;
     location := location d; date := date d; time := time d;
     mode := mode d; audience := audience d; agenda := agenda d;
     organizer := organizer d; tags := tags d; isNew := isNew d;
     modifiedPaths := mark "slug" (negb (bool_decide (v' = slug d))) d |}.

(** [this.date = v]. *)
Definition assign_date (v : jsstring) (d : EventDocument) : EventDocument :=
  let v' := trim v in
  {| title := title d; slug := slug d; description := description d;
     overview := overview d; image := image d; venue := venue d;
     location := location d; date := v'; time := time d;
     mode := mode d; audience := audience d; agenda := agenda d;
     organizer := organizer d; tags := tags d; isNew := isNew d;
     modifiedPaths := mark "date" (negb (bool_decide (v' = date d))) d |}.

(** [this.time = v]. *)
Definition assign_time (v : jsstring) (d : EventDocument) : EventDocument :=
  let v' := trim v in
  {| title := title d; slug := slug d; description := description d;
     overview := overview d; image := image d; venue := venue d;
     location := location d; date := date d; time := v';
     mode := mode d; audience := audience d; agenda := agenda d;
     organizer := organizer d; tags := tags d; isNew := isNew d;
     modifiedPaths := mark "time" (negb (bool_decide (v' = time d))) d |}.

(** The pre-validation hook.  The state is the in-memory document; the
    result is what [next] is called with. *)
Definition preValidate : hook EventDocument unit :=
  do this <- get;;
  do _ <- (if isNew this || isModified "title" this then
     let generatedSlug := slugify (title this) in
     match generatedSlug with
     | [] => throw (Error "Unable to generate slug from title")
     | _ => modify (assign_slug generatedSlug)
     end
   else ret tt);;
  do this <- get;;
  do _ <- (if isModified "date" this then
     do v <- lift (normalizeDate (date this));;
     modify (assign_date v)
   else ret tt);;
  do this <- get;;
  do _ <- (if isModified "time" this then
     do v <- lift (normalizeTime (time this));;
     modify (assign_time v)
   else ret tt);;
  ret tt.

(** The three steps of the hook, one by one. *)
Definition slug_step (d : EventDocument) : EventDocument * result unit :=
  if isNew d || isModified "title" d then
    match slugify (title d) with
    | [] => (d, Throw (Error "Unable to generate slug from title"))
    | s => (assign_slug s d, Ok tt)
    end
  else (d, Ok tt).

Definition date_step (d : EventDocument) : EventDocument * result unit :=
  if isModified "date" d then
    match normalizeDate (date d) with
    | Ok v => (assign_date v d, Ok tt)
    | Throw e => (d, Throw e)
    end
  else (d, Ok tt).

Definition time_step (d : EventDocument) : EventDocument * result unit :=
  if isModified "time" d then
    match normalizeTime (time d) with
    | Ok v => (assign_time v d, Ok tt)
    | Throw e => (d, Throw e)
    end
  else (d, Ok tt).

(** The fields that no step of the hook assigns. *)
Definition same_other_fields (d d' : EventDocument) : Prop :=
  title d' = title d /\ description d' = description d
  /\ overview d' = overview d /\ image d' = image d /\ venue d' = venue d
  /\ location d' = location d /\ mode d' = mode d
  /\ audience d' = audience d /\ agenda d' = agenda d
  /\ organizer d' = organizer d /\ tags d' = tags d /\ isNew d' = isNew d.
End Host.

Definition slug_error : error := Error "Unable to generate slug from title".
Definition date_error : error := Error "Invalid event date".
Definition format_error : error :=
  Error "Invalid event time format. Expected HH:MM".
Definition range_error : error := Error "Invalid event time value".

(** The time pattern in words: one or two digits for the hour [h], a colon,
    two digits for the minute [m], and nothing else. *)
Definition is_time_text (s : jsstring) (h m : N) : Prop :=
  exists hs ms,
    s = hs ++ colon :: ms
    /\ (length hs = 1%nat \/ length hs = 2%nat) /\ length ms = 2%nat
    /\ Forall (fun c => is_digit c = true) hs
    /\ Forall (fun c => is_digit c = true) ms
    /\ h = Number_of_digits hs /\ m = Number_of_digits ms.

(** A number below 100 written with two digits. *)
Definition two_digits (n : N) : jsstring := [48 + n / 10; 48 + n mod 10].

(** A host that maps only ASCII letters and knows no other date format. *)
Definition ascii_only (before : jsstring) (c : N) (after : jsstring)
  : jsstring := [c].
Definition no_other_format (s : jsstring) : option Z := None.

End EventModel.

(** ** The Booking model *)

Module BookingModel.
Import JS Hook Hook.Notations.

Definition ObjectId := N.

Record BookingDocument : Type := {
  eventId : ObjectId;
  email : jsstring;
  isNew : bool;
  modifiedPaths : gset string
}.

Definition isModified (path : string) (b : BookingDocument) : bool :=
  bool_decide (path ∈ modifiedPaths b).

(** The store as the hook and [save] see it: the identifiers of the Event
    documents, the Booking documents written, and the log of the queries
    sent to the Event collection. *)
Record Store : Type := {
  events : gset ObjectId;
  bookings : list BookingDocument;
  event_queries : list ObjectId
}.

(** [Event.exists({ _id: id }).lean()]: one query; the matching identifier,
    or null.  (A query that the store cannot answer is outside this
    model.) *)
Definition Event_exists (id : ObjectId) : hook Store (option ObjectId) :=
  fun st =>
    ({| events := events st; bookings := bookings st;
        event_queries := event_queries st ++ [id] |},
     Ok (if bool_decide (id ∈ events st) then Some id else None)).

Definition preSave (this : BookingDocument) : hook Store unit :=
  if negb (isModified "eventId" this) then ret tt
  else
    do eventExists <- Event_exists (eventId this);;
    match eventExists with
    | None =>
        throw (Error "Cannot create booking: referenced event does not exist.")
    | Some _ => ret tt
    end.

Definition insert_booking (b : BookingDocument) : hook Store unit :=
  modify (fun st => {| events := events st; bookings := bookings st ++ [b];
                       event_queries := event_queries st |}).

Definition integrity_error : error :=
  Error "Cannot create booking: referenced event does not exist.".

Section Save.
(** The schema validation that runs before the pre-save hook. *)
Variable validate : BookingDocument -> result unit.

(** [booking.save()]: validation, the pre-save hook, then the write; an
    error from either of the first two ends the operation. *)
Definition save (b : BookingDocument) : hook Store unit :=
  do _ <- lift (validate b);;
  do _ <- preSave b;;
  insert_booking b.
End Save.

End BookingModel.

(** ** The cached connection *)

Module Mongodb.
Import JS.

(** A connected Mongoose instance, by identity. *)
Definition Mongoose := nat.
Definition caller := nat.
Definition promise_ref := nat.

Inductive settlement : Type :=
  | Fulfilled (m : Mongoose)
  | Rejected (e : error).

Inductive promise_state : Type :=
  | Pending
  | Settled (o : settlement).

Record MongooseCache : Type := {
  conn : option Mongoose;
  promise : option promise_ref
}.

(** One process.  [cached] is the object that both [globalThis.mongoose] and
    the module's [cached] refer to.  [connects] holds the promise returned by
    each call of [mongoose.connect], in call order.  [awaiting] are the calls
    of [connectToDatabase] suspended at their [await]; [completed] is what
    each finished call delivered to its caller. *)
Record process : Type := {
  cached : MongooseCache;
  connects : list promise_state;
  awaiting : list (caller * promise_ref);
  completed : list (caller * settlement)
}.

(** The module body once [MONGODB_URI] is known to be set: [cached] is
    [globalThis.mongoose ?? { conn: null, promise: null }], and
    [globalThis.mongoose] is made to refer to it. *)
Definition load_module (global : option MongooseCache) : MongooseCache :=
  match global with
  | Some c => c
  | None => {| conn := None; promise := None |}
  end.

Definition start : process :=
  {| cached := load_module None; connects := []; awaiting := [];
     completed := [] |}.

Inductive event : Type :=
  | Call (c : caller)
  | Settle (p : promise_ref) (o : settlement)
  | Resume (c : caller)
  | Reload.

(** The first suspended call of [c], and the others. *)
Fixpoint take_awaiting (c : caller) (l : list (caller * promise_ref))
  : option (promise_ref * list (caller * promise_ref)) :=
  match l with
  | [] => None
  | (c', p) :: r =>
      if Nat.eqb c' c then Some (p, r)
      else
        match take_awaiting c r with
        | Some (q, r') => Some (q, (c', p) :: r')
        | None => None
        end
  end.

(** [connectToDatabase()] from its entry to its first [await] or [return].
    The only call of [mongoose.connect] is the one that adds a promise to
    [connects]. *)
Definition call (c : caller) (w : process) : process :=
  match conn (cached w) with
  | Some m =>
      {| cached := cached w; connects := connects w; awaiting := awaiting w;
         completed := completed w ++ [(c, Fulfilled m)] |}
  | None =>
      match promise (cached w) with
      | None =>
          let p := length (connects w) in
          {| cached := {| conn := None; promise := Some p |};
             connects := connects w ++ [Pending];
             awaiting := awaiting w ++ [(c, p)];
             completed := completed w |}
      | Some p =>
          {| cached := cached w; connects := connects w;
             awaiting := awaiting w ++ [(c, p)];
             completed := completed w |}
      end
  end.

(** [connectToDatabase()] from its [await] on: [cached.conn] is assigned and
    returned, or the rejection is thrown to the caller. *)
Definition resume (c : caller) (w : process) : option process :=
  match take_awaiting c (awaiting w) with
  | Some (p, rest) =>
      match connects w !! p with
      | Some (Settled (Fulfilled m)) =>
          Some {| cached := {| conn := Some m; promise := promise (cached w) |};
                  connects := connects w; awaiting := rest;
                  completed := completed w ++ [(c, Fulfilled m)] |}
      | Some (Settled (Rejected e)) =>
          Some {| cached := cached w; connects := connects w;
                  awaiting := rest;
                  completed := completed w ++ [(c, Rejected e)] |}
      | _ => None
      end
  | None => None
  end.

(** The driver settles a pending connection attempt. *)
Definition settle (p : promise_ref) (o : settlement) (w : process)
  : option process :=
  match connects w !! p with
  | Some Pending =>
      Some {| cached := cached w; connects := <[p := Settled o]> (connects w);
              awaiting := awaiting w; completed := completed w |}
  | _ => None
  end.

(** One step of the process; [None] when the event cannot happen. *)
Definition step (w : process) (ev : event) : option process :=
  match ev with
  | Call c => Some (call c w)
  | Settle p o => settle p o w
  | Resume c => resume c w
  | Reload =>
      Some {| cached := load_module (Some (cached w)); connects := connects w;
              awaiting := awaiting w; completed := completed w |}
  end.

Fixpoint run (w : process) (tr : list event) : option process :=
  match tr with
  | [] => Some w
  | ev :: tr' =>
      match step w ev with
      | Some w' => run w' tr'
      | None => None
      end
  end.

(** What holds of every state the process can reach: there is at most one
    connection attempt, the cache points to it, and whatever was cached,
    awaited or delivered is that attempt's. *)
Record cache_inv (w : process) : Prop := {
  inv_promise :
    promise (cached w) = match connects w with [] => None | _ => Some 0%nat end;
  inv_single : (length (connects w) <= 1)%nat;
  inv_conn : forall m,
    conn (cached w) = Some m -> connects w = [Settled (Fulfilled m)];
  inv_awaiting : forall c p,
    In (c, p) (awaiting w) -> p = 0%nat /\ connects w <> [];
  inv_completed : forall c o,
    In (c, o) (completed w) -> connects w = [Settled o]
}.

Definition waiting_on (p : promise_ref) (cs : list caller)
  : list (caller * promise_ref) := map (fun c => (c, p)) cs.
Definition delivered (o : settlement) (cs : list caller)
  : list (caller * settlement) := map (fun c => (c, o)) cs.

End Mongodb.

(** ** Schema validators *)

Module Schema.
Import JS.
Local Open Scope N_scope.

(** [requiredStringField.validate.validator]:
    [value.trim().length > 0]. *)
Definition required_string_validator (value : jsstring) : bool :=
  (0 <? length (trim value))%nat.

(** *** Regular expressions, as backtracking matchers

    A pattern is a function from the rest of the pattern (what must match
    what is left of the input) to a test of the input. *)

Definition matcher := (jsstring -> bool) -> jsstring -> bool.

(** [[...]+] for a class of units: one or more, as many as possible first. *)
Fixpoint plus_class (p : N -> bool) (k : jsstring -> bool) (s : jsstring)
  : bool :=
  match s with
  | c :: r => p c && (plus_class p k r || k r)
  | [] => false
  end.

(** One given unit. *)
Definition unit_lit (x : N) : matcher :=
  fun k s =>
    match s with
    | c :: r => (c =? x) && k r
    | [] => false
    end.

(** [$] at the end of the pattern. *)
Definition at_end (s : jsstring) : bool :=
  match s with
  | [] => true
  | _ :: _ => false
  end.

(** The class [[^\s@]]. *)
Definition not_space_or_at (c : N) : bool :=
  negb (is_whitespace c || (c =? 64)).

(** [EMAIL_REGEX.test(value)] for [/^[^\s@]+@[^\s@]+\.[^\s@]+$/]; with [^]
    the match is tried at the start only. *)
Definition EMAIL_REGEX_test (value : jsstring) : bool :=
  plus_class not_space_or_at
    (unit_lit 64
       (plus_class not_space_or_at
          (unit_lit 46
             (plus_class not_space_or_at at_end)))) value.

(** How often a unit occurs in a string. *)
Fixpoint count_unit (x : N) (s : jsstring) : nat :=
  match s with
  | [] => 0
  | c :: r => (if c =? x then 1 else 0) + count_unit x r
  end.

End Schema.

(** ** Shapes of strings, used to state what the normalizers return *)

Module Shapes.
Import JS JSDate.
Local Open Scope N_scope.

Definition starts_az09 (s : jsstring) : bool :=
  match s with
  | c :: _ => is_az09 c
  | [] => false
  end.

(** The maximal runs of [a-z0-9] in a string, in order. *)
Fixpoint az09_runs (s : jsstring) : list jsstring :=
  match s with
  | [] => []
  | c :: r =>
      if is_az09 c then
        match r with
        | c' :: _ =>
            if is_az09 c' then
              match az09_runs r with
              | w :: ws => (c :: w) :: ws
              | [] => [[c]]
              end
            else [c] :: az09_runs r
        | [] => [[c]]
        end
      else az09_runs r
  end.

(** JavaScript's [<] on strings: code units compared left to right. *)
Fixpoint string_lt (a b : jsstring) : bool :=
  match a, b with
  | _, [] => false
  | [], _ :: _ => true
  | x :: a', y :: b' => (x <? y) || ((x =? y) && string_lt a' b')
  end.

(** The date-only text of a year, a month (1..12) and a day of the month. *)
Definition date_text (y m d : Z) : jsstring :=
  year_string y ++ [45] ++ digits 2 m ++ [45] ++ digits 2 d.

End Shapes.

(** ** Traces of the cached connection *)

Module Trace.
Import JS Mongodb.

(** The number of calls of [connectToDatabase] in a trace. *)
Fixpoint calls_in (tr : list event) : nat :=
  match tr with
  | [] => 0
  | Call _ :: tr' => S (calls_in tr')
  | _ :: tr' => calls_in tr'
  end.

(** A delivered connection is the cached one. *)
Definition delivered_cached (w : process) : Prop :=
  forall c m, In (c, Fulfilled m) (completed w) -> conn (cached w) = Some m.

End Trace.

(** ** A sample document *)

Module Samples.
Import JS EventModel.

(** A new Event as submitted. *)
Definition sample_event : EventDocument :=
  {| title := js "React Summit 2025"; slug := [];
     description := js "d"; overview := js "o"; image := js "i";
     venue := js "v"; location := js "l"; date := js "2025-06";
     time := js " 9:30"; mode := js "m"; audience := js "a";
     agenda := [js "x"]; organizer := js "g"; tags := [js "t"];
     isNew := true;
     modifiedPaths := {[ "title"%string; "date"%string; "time"%string ]} |}.

End Samples.

(** * Properties *)

Ltac Zify.zify_post_hook ::= Z.to_euclidean_division_equations.

(** Turns boolean comparisons on [N] into propositions for [lia]. *)
Ltac bool_to_prop :=
  repeat match goal with
  | H : _ = false |- _ => apply not_true_iff_false in H
  | |- _ = false => apply not_true_iff_false
  end;
  rewrite ?orb_true_iff, ?andb_true_iff, ?negb_true_iff, ?N.eqb_eq,
    ?N.leb_le, ?N.ltb_lt in *.

(** ** Strings: trimming *)

Section StringFacts.
Import JS.
Local Open Scope N_scope.

Lemma drop_while_all p s : forallb p s = true -> drop_while p s = [].
Proof.
  induction s as [|c r IH]; simpl; [done|].
  intros [Hc Hr]%andb_true_iff. rewrite Hc. auto.
Qed.

Lemma drop_while_app_all p l s :
  forallb p l = true -> drop_while p (l ++ s) = drop_while p s.
Proof.
  induction l as [|c r IH]; simpl; [done|].
  intros [Hc Hr]%andb_true_iff. rewrite Hc. auto.
Qed.

Lemma trimEnd_all s : forallb is_whitespace s = true -> trimEnd s = [].
Proof.
  induction s as [|c r IH]; simpl; [done|].
  intros [Hc Hr]%andb_true_iff. rewrite IH, Hc; done.
Qed.

Lemma trimEnd_app_all s l :
  forallb is_whitespace l = true -> trimEnd (s ++ l) = trimEnd s.
Proof.
  intros Hl. induction s as [|c r IH]; simpl.
  - by apply trimEnd_all.
  - by rewrite IH.
Qed.

Lemma trim_surrounded l1 t l2 :
  forallb is_whitespace l1 = true -> forallb is_whitespace l2 = true ->
  trim (l1 ++ t ++ l2) = trim t.
Proof.
  intros H1 H2. unfold trim, trimStart.
  rewrite drop_while_app_all by done.
  induction t as [|c r IH]; simpl.
  - by rewrite drop_while_all.
  - destruct (is_whitespace c); [done|].
    change (c :: r ++ l2) with ((c :: r) ++ l2).
    by rewrite trimEnd_app_all.
Qed.

Lemma trimEnd_id s :
  Forall (fun c => is_whitespace c = false) s -> trimEnd s = s.
Proof.
  induction 1 as [|c r Hc Hr IH]; simpl; [done|].
  rewrite IH, Hc. by destruct r.
Qed.

Lemma trim_id s :
  Forall (fun c => is_whitespace c = false) s -> trim s = s.
Proof.
  intros H. unfold trim, trimStart.
  destruct H as [|c r Hc Hr]; simpl; [done|].
  rewrite Hc. change (trimEnd (c :: r) = c :: r). apply trimEnd_id. by constructor.
Qed.

Lemma az09_not_ws c : is_az09 c = true -> is_whitespace c = false.
Proof.
  unfold is_az09, is_lower, is_digit, is_whitespace. intros H.
  bool_to_prop. lia.
Qed.

(** ** Strings: the two replacements of [slugify] *)

Lemma az09_not_hyphen c : is_az09 c = true -> is_hyphen c = false.
Proof.
  unfold is_az09, is_lower, is_digit, is_hyphen, hyphen. intros H.
  bool_to_prop. lia.
Qed.

(** replace_runs *)
Lemma replace_runs_units b s : forallb slug_unit (replace_runs b s) = true.
Proof.
  revert b. induction s as [|c r IH]; intros b; simpl; [done|].
  destruct (is_az09 c) eqn:Hc; simpl.
  - unfold slug_unit. by rewrite Hc, IH.
  - destruct b; simpl; by rewrite ?IH.
Qed.

Lemma replace_runs_start s : starts_with_hyphen (replace_runs true s) = false.
Proof.
  induction s as [|c r IH]; simpl; [done|].
  destruct (is_az09 c) eqn:Hc; simpl; [by apply az09_not_hyphen|done].
Qed.

Lemma no_double_cons c s :
  no_double_hyphen (c :: s)
  = negb (is_hyphen c && starts_with_hyphen s) && no_double_hyphen s.
Proof. destruct s; simpl; [|done]. by rewrite andb_false_r. Qed.

Lemma replace_runs_no_double b s : no_double_hyphen (replace_runs b s) = true.
Proof.
  revert b. induction s as [|c r IH]; intros b; [done|].
  cbn [replace_runs]. destruct (is_az09 c) eqn:Hc.
  - rewrite no_double_cons, IH, (az09_not_hyphen _ Hc). done.
  - destruct b; [done|]. by rewrite no_double_cons, IH, replace_runs_start.
Qed.

Lemma replace_runs_keeps b s c :
  In c s -> is_az09 c = true -> In c (replace_runs b s).
Proof.
  revert b. induction s as [|c' r IH]; intros b; simpl; [done|].
  intros [->|Hin] Hc.
  - rewrite Hc. by left.
  - destruct (is_az09 c'); [right; auto|]. destruct b; [auto|right; auto].
Qed.

(** drop_while / strip_trailing *)
Lemma drop_while_suffix p s :
  exists l, s = l ++ drop_while p s /\ forallb p l = true.
Proof.
  induction s as [|c r [l [IH Hl]]]; simpl.
  - by exists [].
  - destruct (p c) eqn:Hc.
    + exists (c :: l). simpl. rewrite Hc, Hl. split; [congruence|done].
    + by exists [].
Qed.

Lemma forallb_drop_while (q p : N -> bool) s :
  forallb q s = true -> forallb q (drop_while p s) = true.
Proof.
  induction s as [|c r IH]; simpl; [done|].
  intros [Hc Hr]%andb_true_iff. destruct (p c); [auto|]. simpl. by rewrite Hc, Hr.
Qed.

Lemma no_double_drop_while p s :
  no_double_hyphen s = true -> no_double_hyphen (drop_while p s) = true.
Proof.
  induction s as [|c r IH]; [done|]. rewrite no_double_cons.
  intros [Hc Hr]%andb_true_iff. cbn [drop_while]. destruct (p c); [auto|].
  by rewrite no_double_cons, Hc, Hr.
Qed.

Lemma drop_while_start s : starts_with_hyphen (drop_while is_hyphen s) = false.
Proof.
  induction s as [|c r IH]; simpl; [done|].
  destruct (is_hyphen c) eqn:Hc; [done|]. simpl. done.
Qed.

Lemma drop_while_keeps p s c : In c s -> p c = false -> In c (drop_while p s).
Proof.
  induction s as [|c' r IH]; simpl; [done|].
  intros [->|Hin] Hc.
  - rewrite Hc. by left.
  - destruct (p c'); [auto|by right].
Qed.

Lemma forallb_strip q s :
  forallb q s = true -> forallb q (strip_trailing_hyphens s) = true.
Proof.
  induction s as [|c r IH]; simpl; [done|].
  intros [Hc Hr]%andb_true_iff.
  destruct (is_hyphen c && forallb is_hyphen r); [done|]. simpl. by rewrite Hc, IH.
Qed.

Lemma strip_start s :
  starts_with_hyphen s = false ->
  starts_with_hyphen (strip_trailing_hyphens s) = false.
Proof.
  destruct s as [|c r]; simpl; [done|]. intros Hc.
  rewrite Hc. done.
Qed.

Lemma strip_start_le s :
  starts_with_hyphen (strip_trailing_hyphens s) = true ->
  starts_with_hyphen s = true.
Proof.
  destruct s as [|c r]; simpl; [done|].
  destruct (is_hyphen c && forallb is_hyphen r); done.
Qed.

Lemma no_double_strip s :
  no_double_hyphen s = true ->
  no_double_hyphen (strip_trailing_hyphens s) = true.
Proof.
  induction s as [|c r IH]; [done|]. rewrite no_double_cons.
  intros [Hc Hr]%andb_true_iff. cbn [strip_trailing_hyphens].
  destruct (is_hyphen c && forallb is_hyphen r); [done|].
  rewrite no_double_cons, IH by done. rewrite andb_true_r.
  destruct (is_hyphen c); [|done]. simpl in *.
  destruct (starts_with_hyphen (strip_trailing_hyphens r)) eqn:E; [|done].
  apply strip_start_le in E. by rewrite E in Hc.
Qed.

Lemma strip_end s : ends_with_hyphen (strip_trailing_hyphens s) = false.
Proof.
  induction s as [|c r IH]; simpl; [done|].
  destruct (is_hyphen c) eqn:Hc; simpl.
  - destruct (forallb is_hyphen r) eqn:Hr; [done|]. simpl.
    destruct (strip_trailing_hyphens r) eqn:E; [|done].
    exfalso. clear IH. revert Hr E. clear. induction r as [|c' r IH]; simpl; [done|].
    destruct (is_hyphen c'); simpl; [|done].
    destruct (forallb is_hyphen r); [done|]. done.
  - destruct (strip_trailing_hyphens r) eqn:E; [done|]. done.
Qed.

Lemma strip_keeps s c :
  In c s -> is_hyphen c = false -> In c (strip_trailing_hyphens s).
Proof.
  induction s as [|c' r IH]; simpl; [done|].
  intros Hin Hc.
  destruct (is_hyphen c' && forallb is_hyphen r) eqn:E.
  - exfalso. apply andb_true_iff in E as [E1 E2].
    destruct Hin as [->|Hin]; [congruence|].
    rewrite forallb_forall in E2. rewrite E2 in Hc; done.
  - destruct Hin as [->|Hin]; [by left|right; auto].
Qed.

End StringFacts.

(** ** slugify *)

Section SlugFacts.
Import JS EventModel.
Local Open Scope N_scope.

Lemma trimEnd_keeps s c : In c s -> is_whitespace c = false -> In c (trimEnd s).
Proof.
  induction s as [|c' r IH]; simpl; [done|].
  intros [->|Hin] Hc.
  - destruct (trimEnd r); [rewrite Hc|]; by left.
  - specialize (IH Hin Hc). destruct (trimEnd r); [done|by right].
Qed.

Lemma trim_keeps s c : In c s -> is_whitespace c = false -> In c (trim s).
Proof.
  intros Hin Hc. apply trimEnd_keeps; [|done]. by apply drop_while_keeps.
Qed.

Lemma ascii_lower_alnum c : is_alnum c = true -> is_az09 (ascii_lower c) = true.
Proof.
  unfold is_alnum, ascii_lower, is_az09, is_lower, is_digit.
  destruct (is_upper c) eqn:Hu; unfold is_upper in Hu; intros H; bool_to_prop; lia.
Qed.

Lemma alnum_ascii c : is_alnum c = true -> (c <? 128) = true.
Proof.
  unfold is_alnum, is_upper, is_az09, is_lower, is_digit. intros H.
  bool_to_prop. lia.
Qed.

Lemma toLowerCase_from_alnum ext before s c :
  In c s -> is_alnum c = true ->
  exists c', In c' (toLowerCase_from ext before s) /\ is_az09 c' = true.
Proof.
  revert before. induction s as [|c0 r IH]; intros before; simpl; [done|].
  intros [->|Hin] Hc.
  - exists (ascii_lower c). rewrite (alnum_ascii _ Hc). split; [by left|].
    by apply ascii_lower_alnum.
  - destruct (IH (before ++ [c0]) Hin Hc) as (c' & Hin' & Hc').
    exists c'. split; [|done]. apply in_or_app. by right.
Qed.

Lemma slugify_has_az09 ext title :
  (exists c, In c title /\ is_alnum c = true) ->
  exists c, In c (slugify ext title) /\ is_az09 c = true.
Proof.
  intros (c & Hin & Hc).
  destruct (toLowerCase_from_alnum ext [] title c Hin Hc) as (c' & Hin' & Hc').
  exists c'. split; [|done]. unfold slugify, strip_edge_hyphens.
  apply strip_keeps; [|by apply az09_not_hyphen].
  apply drop_while_keeps; [|by apply az09_not_hyphen].
  apply replace_runs_keeps; [|done].
  apply trim_keeps; [done|]. by apply az09_not_ws.
Qed.

Lemma slugify_units ext title : forallb slug_unit (slugify ext title) = true.
Proof.
  unfold slugify, strip_edge_hyphens.
  apply forallb_strip, forallb_drop_while, replace_runs_units.
Qed.

Lemma slugify_start ext title : starts_with_hyphen (slugify ext title) = false.
Proof. unfold slugify, strip_edge_hyphens. apply strip_start, drop_while_start. Qed.

Lemma slugify_end ext title : ends_with_hyphen (slugify ext title) = false.
Proof. unfold slugify, strip_edge_hyphens. apply strip_end. Qed.

Lemma slugify_no_double ext title : no_double_hyphen (slugify ext title) = true.
Proof.
  unfold slugify, strip_edge_hyphens.
  apply no_double_strip, no_double_drop_while, replace_runs_no_double.
Qed.

(** Letters outside ASCII are separators to the slug pattern: a title made
    of them alone has an empty slug. *)
Example slugify_non_ascii_title :
  slugify ascii_only [26085; 26412; 35486] = [].
Proof. reflexivity. Qed.


Lemma starts_with_hyphen_head s :
  starts_with_hyphen s = false -> head s <> Some hyphen.
Proof.
  destruct s as [|c r]; simpl; [done|]. unfold is_hyphen.
  intros H%N.eqb_neq. congruence.
Qed.

Lemma ends_with_hyphen_last s :
  ends_with_hyphen s = false -> last s <> Some hyphen.
Proof.
  induction s as [|c r IH]; simpl; [done|].
  destruct r as [|c' r']; [|done].
  unfold is_hyphen. intros H%N.eqb_neq. simpl. congruence.
Qed.

Lemma no_double_hyphen_adjacent s l1 l2 :
  no_double_hyphen s = true -> s <> l1 ++ [hyphen; hyphen] ++ l2.
Proof.
  revert s. induction l1 as [|c l1 IH]; intros s Hs ->.
  - simpl in Hs. done.
  - change ((c :: l1) ++ [hyphen; hyphen] ++ l2) with (c :: (l1 ++ [hyphen; hyphen] ++ l2)) in Hs.
    rewrite no_double_cons in Hs. apply andb_true_iff in Hs as [_ Hs].
    by eapply IH.
Qed.


Lemma join_hyphen_cons c w ws :
  join_hyphen ((c :: w) :: ws) = c :: join_hyphen (w :: ws).
Proof. by destruct ws. Qed.

Lemma hyphen_separated_aux s :
  forallb slug_unit s = true -> no_double_hyphen s = true ->
  ends_with_hyphen s = false ->
  exists words, Forall word words /\
    (starts_with_hyphen s = true ->
       s = hyphen :: join_hyphen words /\ words <> [])
    /\ (starts_with_hyphen s = false ->
       s = join_hyphen words /\ (s <> [] -> words <> [])).
Proof.
  induction s as [|c r IH]; [by exists []|].
  rewrite no_double_cons. cbn [forallb].
  intros [Hc Hr]%andb_true_iff [Hcc Hnd]%andb_true_iff He.
  destruct r as [|c' r'].
  - simpl in He. unfold slug_unit in Hc. rewrite He, orb_false_r in Hc.
    exists [[c]]. split.
    + constructor; [|done]. split; [done|]. by constructor.
    + simpl. rewrite He. done.
  - assert (ends_with_hyphen (c' :: r') = false) as He' by done.
    destruct (IH Hr Hnd He') as (words & Hw & Hyes & Hno). clear IH.
    cbn [starts_with_hyphen]. destruct (is_hyphen c) eqn:Hh.
    + exists words. split; [done|]. split; [|intros [=]]. intros _.
      simpl in Hcc. apply negb_true_iff in Hcc.
      destruct (Hno Hcc) as [E Hne]. unfold is_hyphen in Hh.
      apply N.eqb_eq in Hh. subst c.
      split; [by rewrite <- E|]. by apply Hne.
    + unfold slug_unit in Hc. rewrite Hh, orb_false_r in Hc.
      destruct (starts_with_hyphen (c' :: r')) eqn:Hs.
      * destruct (Hyes eq_refl) as [E Hne].
        exists ([c] :: words). split.
        { constructor; [|done]. split; [done|]. by constructor. }
        split; [intros [=]|]. intros _. split; [|done].
        rewrite E. by destruct words.
      * destruct (Hno eq_refl) as [Hr' Hne].
        destruct words as [|w ws]; [by destruct Hne|].
        exists ((c :: w) :: ws). split.
        { inversion Hw as [|? ? [Hw1 Hw2] Hws]; subst. constructor; [|done].
          split; [done|]. by constructor. }
        split; [intros [=]|]. intros _. split; [|done].
        rewrite join_hyphen_cons. f_equal. exact Hr'.
Qed.

Lemma hyphen_separated s :
  s <> [] -> forallb slug_unit s = true -> no_double_hyphen s = true ->
  starts_with_hyphen s = false -> ends_with_hyphen s = false ->
  exists words, words <> [] /\ Forall word words /\ s = join_hyphen words.
Proof.
  intros Hne Hu Hnd Hs He.
  destruct (hyphen_separated_aux s Hu Hnd He) as (words & Hw & _ & Hno).
  destruct (Hno Hs) as [-> Hne']. exists words. auto.
Qed.

End SlugFacts.

(** ** normalizeTime *)

Section TimeFacts.
Import JS EventModel.
Local Open Scope N_scope.

Lemma digit_not_colon c : is_digit c = true -> (c =? colon) = false.
Proof. unfold is_digit, colon. intros H. bool_to_prop. lia. Qed.

Lemma match_time_Some s g1 g2 :
  match_time s = Some (g1, g2) <->
  s = g1 ++ colon :: g2
  /\ (length g1 = 1%nat \/ length g1 = 2%nat) /\ length g2 = 2%nat
  /\ Forall (fun c => is_digit c = true) g1
  /\ Forall (fun c => is_digit c = true) g2.
Proof.
  split.
  - unfold match_time.
    destruct s as [|a [|b [|c [|d [|e [|f s]]]]]]; try done.
    + destruct (is_digit a) eqn:Ha, (N.eqb_spec b colon), (is_digit c) eqn:Hc,
        (is_digit d) eqn:Hd; simpl; try done.
      intros [= <- <-]. subst b. repeat split; auto.
    + destruct (is_digit a) eqn:Ha, (is_digit b) eqn:Hb, (N.eqb_spec c colon),
        (is_digit d) eqn:Hd, (is_digit e) eqn:He; simpl; try done.
      intros [= <- <-]. subst c. repeat split; auto.
  - intros (-> & Hl1 & Hl2 & H1 & H2).
    destruct g2 as [|d [|e [|]]]; try done.
    inversion H2 as [|? ? Hd H2']; subst. inversion H2' as [|? ? He _]; subst.
    destruct Hl1 as [Hl1|Hl1].
    + destruct g1 as [|a [|]]; try done. inversion H1 as [|? ? Ha _]; subst.
      simpl. by rewrite Ha, Hd, He.
    + destruct g1 as [|a [|b [|]]]; try done.
      inversion H1 as [|? ? Ha H1']; subst. inversion H1' as [|? ? Hb _]; subst.
      simpl. by rewrite Ha, Hb, Hd, He.
Qed.

Lemma match_time_unique s h1 m1 h2 m2 :
  is_time_text s h1 m1 -> is_time_text s h2 m2 -> h1 = h2 /\ m1 = m2.
Proof.
  intros (a1 & b1 & E1 & L1 & L1' & D1 & D1' & -> & ->)
         (a2 & b2 & E2 & L2 & L2' & D2 & D2' & -> & ->).
  assert (match_time s = Some (a1, b1)) as M1 by (apply match_time_Some; auto).
  assert (match_time s = Some (a2, b2)) as M2 by (apply match_time_Some; auto).
  rewrite M1 in M2. by injection M2 as -> ->.
Qed.

Lemma pad2 n : n < 100 -> padStart 2 48 (Number_toString n) = two_digits n.
Proof.
  intros H. rewrite <- (N2Nat.id n).
  assert (N.to_nat n < 100)%nat as Hn by lia. clear H.
  generalize dependent (N.to_nat n). clear n. intros n Hn.
  do 100 (destruct n as [|n]; [vm_compute; reflexivity|]). lia.
Qed.

Lemma Number_of_digits_lt_100 g :
  (length g <= 2)%nat -> Forall (fun c => is_digit c = true) g ->
  Number_of_digits g < 100.
Proof.
  unfold Number_of_digits, is_digit.
  destruct g as [|a [|b [|]]]; simpl; intros Hl Hd; try lia.
  - inversion Hd as [|? ? Ha _]; subst. bool_to_prop. lia.
  - inversion Hd as [|? ? Ha Hd']; subst. inversion Hd' as [|? ? Hb _]; subst.
    bool_to_prop. lia.
Qed.

Lemma normalizeTime_unfold s :
  normalizeTime s =
  match match_time (trim s) with
  | None => Throw format_error
  | Some (g1, g2) =>
      if (23 <? Number_of_digits g1) || (59 <? Number_of_digits g2)
      then Throw range_error
      else Ok (two_digits (Number_of_digits g1)
                 ++ colon :: two_digits (Number_of_digits g2))
  end.
Proof.
  unfold normalizeTime. destruct (match_time (trim s)) as [[g1 g2]|] eqn:M; [|done].
  apply match_time_Some in M as (_ & L1 & L2 & D1 & D2).
  replace (Number_of_digits g1 <? 0) with false by (symmetry; apply N.ltb_ge; lia).
  replace (Number_of_digits g2 <? 0) with false by (symmetry; apply N.ltb_ge; lia).
  rewrite orb_false_l, orb_false_r.
  destruct (_ || _); [done|].
  rewrite !pad2; [done| |]; apply Number_of_digits_lt_100; auto; lia.
Qed.

Lemma is_time_text_match s h m :
  is_time_text s h m <->
  exists g1 g2, match_time s = Some (g1, g2)
    /\ h = Number_of_digits g1 /\ m = Number_of_digits g2.
Proof.
  split.
  - intros (g1 & g2 & E & L1 & L2 & D1 & D2 & -> & ->).
    exists g1, g2. split; [|done]. apply match_time_Some; auto.
  - intros (g1 & g2 & M & -> & ->). apply match_time_Some in M.
    exists g1, g2. tauto.
Qed.

Lemma normalizeTime_ok s r :
  normalizeTime s = Ok r <->
  exists h m, is_time_text (trim s) h m /\ h <= 23 /\ m <= 59
    /\ r = two_digits h ++ colon :: two_digits m.
Proof.
  rewrite normalizeTime_unfold. split.
  - destruct (match_time (trim s)) as [[g1 g2]|] eqn:M; [|done].
    destruct (_ || _) eqn:Hr; [done|]. intros [= <-].
    apply orb_false_iff in Hr as [H1 H2]. apply N.ltb_ge in H1, H2.
    exists (Number_of_digits g1), (Number_of_digits g2).
    split; [|done]. apply is_time_text_match. eauto.
  - intros (h & m & (g1 & g2 & M & -> & ->)%is_time_text_match & Hh & Hm & ->).
    rewrite M.
    replace (23 <? _) with false by (symmetry; apply N.ltb_ge; lia).
    replace (59 <? _) with false by (symmetry; apply N.ltb_ge; lia).
    done.
Qed.

Lemma normalizeTime_format s :
  normalizeTime s = Throw format_error <->
  ~ exists h m, is_time_text (trim s) h m.
Proof.
  rewrite normalizeTime_unfold. split.
  - destruct (match_time (trim s)) as [[g1 g2]|] eqn:M.
    + destruct (_ || _); done.
    + intros _ (h & m & (g1 & g2 & M' & _)%is_time_text_match). congruence.
  - intros Hn. destruct (match_time (trim s)) as [[g1 g2]|] eqn:M; [|done].
    destruct Hn. eexists _, _. apply is_time_text_match. eauto.
Qed.

Lemma normalizeTime_range s :
  normalizeTime s = Throw range_error <->
  exists h m, is_time_text (trim s) h m /\ (23 < h \/ 59 < m).
Proof.
  rewrite normalizeTime_unfold. split.
  - destruct (match_time (trim s)) as [[g1 g2]|] eqn:M; [|done].
    destruct (_ || _) eqn:Hr; [|done]. intros _.
    apply orb_true_iff in Hr. rewrite !N.ltb_lt in Hr.
    exists (Number_of_digits g1), (Number_of_digits g2).
    split; [|done]. apply is_time_text_match. eauto.
  - intros (h & m & (g1 & g2 & M & -> & ->)%is_time_text_match & Hr).
    rewrite M. rewrite <- !N.ltb_lt, <- orb_true_iff in Hr. by rewrite Hr.
Qed.

Lemma normalizeTime_surrounded l1 t l2 :
  forallb is_whitespace l1 = true -> forallb is_whitespace l2 = true ->
  normalizeTime (l1 ++ t ++ l2) = normalizeTime t.
Proof.
  intros H1 H2. unfold normalizeTime. by rewrite trim_surrounded.
Qed.

Lemma two_digits_digit n :
  n < 100 -> Forall (fun c => is_digit c = true) (two_digits n).
Proof.
  intros H. unfold two_digits, is_digit.
  apply List.Forall_cons; [|apply List.Forall_cons; [|apply List.Forall_nil]];
    bool_to_prop; lia.
Qed.

Lemma two_digits_value n : n < 100 -> Number_of_digits (two_digits n) = n.
Proof.
  intros H. unfold two_digits, Number_of_digits. simpl. lia.
Qed.

Lemma digit_not_ws c : is_digit c = true -> is_whitespace c = false.
Proof. intros H. apply az09_not_ws. unfold is_az09. by rewrite H, orb_true_r. Qed.

Lemma normalizeTime_idempotent s r :
  normalizeTime s = Ok r -> normalizeTime r = Ok r.
Proof.
  intros (h & m & _ & Hh & Hm & ->)%normalizeTime_ok.
  apply normalizeTime_ok. exists h, m. split; [|done].
  assert (Forall (fun c => is_digit c = true) (two_digits h)) as Dh
    by (apply two_digits_digit; lia).
  assert (Forall (fun c => is_digit c = true) (two_digits m)) as Dm
    by (apply two_digits_digit; lia).
  rewrite trim_id.
  - exists (two_digits h), (two_digits m).
    rewrite !two_digits_value by lia. repeat split; auto.
  - apply Forall_app. split; [|constructor; [done|]].
    + eapply List.Forall_impl; [|exact Dh]. apply digit_not_ws.
    + eapply List.Forall_impl; [|exact Dm]. apply digit_not_ws.
Qed.


End TimeFacts.

(** ** The calendar *)

Section CalendarFacts.
Import JS JSDate.
Local Open Scope Z_scope.

Lemma DayFromYear_succ y : DayFromYear (y + 1) = DayFromYear y + DaysInYear y.
Proof.
  unfold DayFromYear, DaysInYear, leap_days, is_leap.
  destruct (y mod 4 =? 0) eqn:H4; destruct (y mod 100 =? 0) eqn:H100;
    destruct (y mod 400 =? 0) eqn:H400; simpl;
    rewrite ?Z.eqb_eq, ?Z.eqb_neq in *; lia.
Qed.

Lemma DayFromYear_bounds y :
  146097 * (y - 1970) - 800 <= 400 * DayFromYear y
  <= 146097 * (y - 1970) + 800.
Proof. unfold DayFromYear. lia. Qed.

Lemma YearFromDay_spec d :
  DayFromYear (YearFromDay d) <= d < DayFromYear (YearFromDay d + 1).
Proof.
  unfold YearFromDay.
  set (y := 1970 + 400 * d / 146097).
  assert (146097 * (y - 1970) <= 400 * d < 146097 * (y - 1970) + 146097)
    as Hy by (unfold y; lia).
  clearbody y.
  pose proof (DayFromYear_bounds (y - 1)) as B1.
  pose proof (DayFromYear_bounds (y + 1 + 1)) as B2.
  destruct (Z.ltb_spec d (DayFromYear y)).
  - replace (y - 1 + 1) with y by lia. lia.
  - destruct (Z.leb_spec (DayFromYear (y + 1)) d); lia.
Qed.

Lemma YearFromDay_unique d y :
  DayFromYear y <= d < DayFromYear (y + 1) -> YearFromDay d = y.
Proof.
  intros H. pose proof (YearFromDay_spec d) as H'.
  assert (forall a b, a <= b -> DayFromYear a <= DayFromYear b) as Hmono.
  { intros a b Hab. unfold DayFromYear. lia. }
  destruct (Z.lt_trichotomy (YearFromDay d) y) as [Hlt|[->|Hgt]]; [|done|].
  - pose proof (Hmono (YearFromDay d + 1) y ltac:(lia)). lia.
  - pose proof (Hmono (y + 1) (YearFromDay d) ltac:(lia)). lia.
Qed.

Lemma DayWithinYear_range t :
  0 <= DayWithinYear t < DaysInYear (YearFromTime t).
Proof.
  unfold DayWithinYear, YearFromTime.
  pose proof (YearFromDay_spec (Day t)) as H.
  rewrite DayFromYear_succ in H. lia.
Qed.

Lemma leap_days_01 y : leap_days y = 0 \/ leap_days y = 1.
Proof. unfold leap_days. destruct (is_leap y); auto. Qed.

Lemma month_of_day_spec l dwy :
  (l = 0 \/ l = 1) -> 0 <= dwy < 365 + l ->
  let m := month_of_day l dwy in
  0 <= m <= 11 /\ month_start l m <= dwy < month_start l (m + 1).
Proof.
  intros Hl Hd. unfold month_of_day.
  repeat match goal with
  | |- context [if ?a <? ?b then _ else _] => destruct (Z.ltb_spec a b)
  end; simpl in *; lia.
Qed.

Lemma MonthFromTime_range t : 0 <= MonthFromTime t <= 11.
Proof.
  unfold MonthFromTime.
  apply (month_of_day_spec _ _ (leap_days_01 _) (DayWithinYear_range t)).
Qed.

Lemma DateFromTime_range t :
  1 <= DateFromTime t <= DaysInMonth (YearFromTime t) (MonthFromTime t).
Proof.
  unfold DateFromTime, DaysInMonth, MonthFromTime.
  pose proof (month_of_day_spec _ _ (leap_days_01 (YearFromTime t))
                (DayWithinYear_range t)) as [_ H].
  simpl in H. lia.
Qed.

Lemma MakeDay_of_time t :
  MakeDay (YearFromTime t) (MonthFromTime t) (DateFromTime t) = Day t.
Proof. unfold MakeDay, DateFromTime, MonthFromTime, DayWithinYear. lia. Qed.

Lemma Day_of_midnight d : Day (MakeDate d 0) = d.
Proof. unfold Day, MakeDate, msPerDay. lia. Qed.

Lemma YearFromTime_range t :
  Z.abs t <= 8640000000000000 -> -271821 <= YearFromTime t <= 275760.
Proof.
  intros Ht. unfold YearFromTime.
  pose proof (YearFromDay_spec (Day t)) as H.
  assert (-100000000 <= Day t <= 100000000) as HD by (unfold Day, msPerDay; lia).
  assert (forall a b, a <= b -> DayFromYear a <= DayFromYear b) as Hmono.
  { intros a b Hab. unfold DayFromYear. lia. }
  assert (DayFromYear (-271821) <= -100000000) as L by (vm_compute; discriminate).
  assert (100000000 < DayFromYear 275761) as U by (vm_compute; reflexivity).
  split.
  - destruct (Z.le_gt_cases (-271821) (YearFromDay (Day t))) as [|Hlt]; [done|].
    pose proof (Hmono (YearFromDay (Day t) + 1) (-271821) ltac:(lia)).
    (* Day t >= -1e8 >= DayFromYear(-271821) *)
    assert (DayFromYear (-271821 + 1) <= Day t \/ True) by auto.
    lia.
  - destruct (Z.le_gt_cases (YearFromDay (Day t)) 275760) as [|Hgt]; [done|].
    pose proof (Hmono 275761 (YearFromDay (Day t)) ltac:(lia)). lia.
Qed.

(** ** Date strings *)

Lemma digit_unit_is_digit n : is_digit (digit_unit n) = true.
Proof.
  unfold is_digit, digit_unit. apply andb_true_iff.
  rewrite !N.leb_le. lia.
Qed.

Lemma digit_unit_value n : digit_value (digit_unit n) = n mod 10.
Proof. unfold digit_value, digit_unit. lia. Qed.

Lemma parse_digits_snoc w : forall acc s,
  parse_digits (S w) acc s =
  match parse_digits w acc s with
  | Some (v, c :: r) =>
      if is_digit c then Some (10 * v + digit_value c, r) else None
  | _ => None
  end.
Proof.
  induction w as [|w IH]; intros acc s.
  - simpl. destruct s; done.
  - change (parse_digits (S (S w)) acc s) with
      (match s with
       | c :: r => if is_digit c then parse_digits (S w) (10 * acc + digit_value c) r else None
       | [] => None
       end).
    destruct s as [|c r]; [done|]. simpl (parse_digits (S w) acc (c :: r)).
    destruct (is_digit c); [|done]. apply IH.
Qed.

Lemma parse_digits_digits w : forall n acc rest,
  0 <= n < 10 ^ Z.of_nat w ->
  parse_digits w acc (digits w n ++ rest) = Some (acc * 10 ^ Z.of_nat w + n, rest).
Proof.
  induction w as [|w IH]; intros n acc rest Hn.
  - simpl in *. f_equal. f_equal. lia.
  - rewrite parse_digits_snoc. cbn [digits]. rewrite <- app_assoc.
    rewrite Nat2Z.inj_succ, Z.pow_succ_r in * by lia.
    rewrite IH by lia. simpl.
    rewrite digit_unit_is_digit, digit_unit_value.
    f_equal. f_equal. lia.
Qed.

Lemma digits_are_digits w : forall n, Forall (fun c => is_digit c = true) (digits w n).
Proof.
  induction w as [|w IH]; intros n; simpl; [constructor|].
  apply Forall_app. split; [apply IH|].
  apply List.Forall_cons; [apply digit_unit_is_digit|apply List.Forall_nil].
Qed.

Lemma digits_length w : forall n, length (digits w n) = w.
Proof.
  induction w as [|w IH]; intros n; simpl; [done|].
  rewrite length_app, IH. simpl. lia.
Qed.

Lemma parse_year_digit_head c r :
  is_digit c = true -> parse_year (c :: r) = parse_digits 4 0 (c :: r).
Proof.
  intros Hc. unfold parse_year.
  replace (c =? 43)%N with false
    by (symmetry; unfold is_digit in Hc; bool_to_prop; lia).
  replace (c =? 45)%N with false
    by (symmetry; unfold is_digit in Hc; bool_to_prop; lia).
  done.
Qed.

Lemma parse_year_year_string y rest :
  -999999 <= y <= 999999 ->
  parse_year (year_string y ++ rest) = Some (y, rest).
Proof.
  intros Hy. unfold year_string.
  destruct (Z.leb_spec 0 y) as [H0|H0]; [destruct (Z.leb_spec y 9999) as [H9|H9]|]; simpl andb; cbv iota.
  - pose proof (parse_digits_digits 4 y 0 rest ltac:(simpl; lia)) as P.
    pose proof (digits_are_digits 4 y) as D.
    pose proof (digits_length 4 y) as L.
    destruct (digits 4 y) as [|c l]; [done|].
    inversion D as [|? ? Hc _]; subst.
    change ((c :: l) ++ rest) with (c :: (l ++ rest)) in *.
    rewrite parse_year_digit_head, P by done. f_equal.
  - destruct (Z.ltb_spec y 0); [lia|].
    rewrite <- app_comm_cons.
    change (parse_year (43%N :: ?s)) with (parse_digits 6 0 s).
    rewrite parse_digits_digits by (simpl; lia). f_equal. f_equal. lia.
  - destruct (Z.ltb_spec y 0); [|lia].
    rewrite <- app_comm_cons.
    change (parse_year (45%N :: ?s)) with
      (match parse_digits 6 0 s with
       | Some (v, r') => if v =? 0 then None else Some (- v, r')
       | None => None
       end).
    rewrite parse_digits_digits by (simpl; lia).
    destruct (Z.eqb_spec (0 * 10 ^ Z.of_nat 6 + Z.abs y) 0); [lia|].
    f_equal. f_equal. lia.
Qed.

Lemma parse_month_day_string m d :
  0 <= m < 100 -> 0 <= d < 100 ->
  parse_month_day ([45%N] ++ digits 2 m ++ [45%N] ++ digits 2 d) = Some (m, d).
Proof.
  intros Hm Hd.
  change (parse_month_day ([45%N] ++ ?s)) with
    (match parse_digits 2 0 s with
     | Some (m, []) => Some (m, 1)
     | Some (m, c' :: r') =>
         if (c' =? 45)%N then
           match parse_digits 2 0 r' with
           | Some (d, []) => Some (m, d)
           | _ => None
           end
         else None
     | None => None
     end).
  rewrite parse_digits_digits by (simpl; lia).
  change ([45%N] ++ digits 2 d) with (45%N :: digits 2 d). cbv iota.
  change (45 =? 45)%N with true. cbv iota.
  rewrite <- (app_nil_r (digits 2 d)).
  rewrite parse_digits_digits by (simpl; lia).
  f_equal; f_equal; lia.
Qed.

Lemma parse_date_only_date_string t :
  Z.abs t <= 8640000000000000 ->
  parse_date_only (date_string t) = Some (MakeDate (Day t) 0).
Proof.
  intros Ht. unfold parse_date_only, date_string.
  pose proof (YearFromTime_range t Ht) as Hy.
  pose proof (MonthFromTime_range t) as Hm.
  pose proof (DateFromTime_range t) as Hd.
  assert (DaysInMonth (YearFromTime t) (MonthFromTime t) <= 31) as Hdm.
  { unfold DaysInMonth. destruct (leap_days_01 (YearFromTime t)) as [-> | ->];
      destruct (MonthFromTime t) as [|p|p]; try lia;
      do 4 (try destruct p as [p|p|]); simpl; lia. }
  rewrite parse_year_year_string by lia.
  rewrite parse_month_day_string by lia.
  replace (MonthFromTime t + 1 - 1) with (MonthFromTime t) by lia.
  destruct (Z.leb_spec 1 (MonthFromTime t + 1)); [|lia].
  destruct (Z.leb_spec (MonthFromTime t + 1) 12); [|lia].
  destruct (Z.leb_spec 1 (DateFromTime t)); [|lia].
  destruct (Z.leb_spec (DateFromTime t) (DaysInMonth (YearFromTime t) (MonthFromTime t))); [|lia].
  simpl. by rewrite MakeDay_of_time.
Qed.

Lemma date_string_Day t t' : Day t = Day t' -> date_string t = date_string t'.
Proof.
  intros H. unfold date_string, DateFromTime, MonthFromTime, DayWithinYear, YearFromTime.
  by rewrite H.
Qed.

Lemma split_head_app sep l r :
  Forall (fun c => c <> sep) l -> split_head sep (l ++ sep :: r) = l.
Proof.
  induction 1 as [|c l Hc Hl IH]; simpl.
  - by rewrite N.eqb_refl.
  - destruct (N.eqb_spec c sep); [done|]. by rewrite IH.
Qed.

Lemma date_string_units t :
  Forall (fun c => is_digit c = true \/ c = 45%N \/ c = 43%N) (date_string t).
Proof.
  assert (forall w n, Forall (fun c => is_digit c = true \/ c = 45%N \/ c = 43%N) (digits w n)) as D.
  { intros w n. eapply List.Forall_impl; [|apply digits_are_digits]. auto. }
  unfold date_string, year_string.
  apply Forall_app; split.
  - destruct (_ && _); [apply D|]. apply List.Forall_cons; [|apply D].
    destruct (_ <? _); auto.
  - change ([45%N] ++ ?l) with (45%N :: l). apply List.Forall_cons; [auto|].
    apply Forall_app; split; [apply D|].
    change ([45%N] ++ ?l) with (45%N :: l). apply List.Forall_cons; [auto|].
    apply D.
Qed.

Lemma split_head_toISOString t : split_head 84 (toISOString t) = date_string t.
Proof.
  unfold toISOString. simpl app. apply split_head_app.
  eapply List.Forall_impl; [|apply date_string_units].
  intros c [H|[->| ->]]; [|done|done]. intros ->. done.
Qed.

End CalendarFacts.

(** ** normalizeDate *)

Section DateFacts.
Import JS JSDate EventModel.
Local Open Scope Z_scope.


Variable host_parse : jsstring -> option Z.

Lemma Date_of_string_range s t :
  Date_of_string host_parse s = Some t -> Z.abs t <= 8640000000000000.
Proof.
  unfold Date_of_string, TimeClip. destruct (Date_parse host_parse s) as [v|]; [|done].
  destruct (Z.ltb_spec 8640000000000000 (Z.abs v)); [done|]. by intros [= <-].
Qed.

Lemma normalizeDate_ok s r :
  normalizeDate host_parse s = Ok r <->
  exists t, Date_of_string host_parse s = Some t /\ r = date_string t.
Proof.
  unfold normalizeDate. destruct (Date_of_string host_parse s) as [t|].
  - rewrite split_head_toISOString. split.
    + intros [= <-]. eauto.
    + intros (t' & [= <-] & ->). done.
  - split; [done|]. by intros (t' & ? & _).
Qed.

Lemma normalizeDate_fails s e :
  normalizeDate host_parse s = Throw e <->
  Date_of_string host_parse s = None /\ e = Error "Invalid event date".
Proof.
  unfold normalizeDate. destruct (Date_of_string host_parse s) as [t|].
  - split; [done|]. by intros [? _].
  - split; [by intros [= <-]|]. by intros [_ ->].
Qed.

Lemma Date_of_string_date_string t :
  Z.abs t <= 8640000000000000 ->
  Date_of_string host_parse (date_string t) = Some (MakeDate (Day t) 0).
Proof.
  intros Ht. unfold Date_of_string, Date_parse.
  rewrite parse_date_only_date_string by done. unfold TimeClip.
  destruct (Z.ltb_spec 8640000000000000 (Z.abs (MakeDate (Day t) 0))) as [H|H]; [|done].
  unfold MakeDate, Day, msPerDay in H. lia.
Qed.

Lemma normalizeDate_idempotent s r :
  normalizeDate host_parse s = Ok r -> normalizeDate host_parse r = Ok r.
Proof.
  intros (t & Ht & ->)%normalizeDate_ok. apply Date_of_string_range in Ht.
  apply normalizeDate_ok. exists (MakeDate (Day t) 0).
  split; [by apply Date_of_string_date_string|].
  apply date_string_Day. by rewrite Day_of_midnight.
Qed.

Lemma date_string_form t :
  0 <= YearFromTime t <= 9999 -> is_YYYY_MM_DD (date_string t) = true.
Proof.
  intros Hy. unfold date_string, year_string.
  destruct (Z.leb_spec 0 (YearFromTime t)); [|lia].
  destruct (Z.leb_spec (YearFromTime t) 9999); [|lia].
  cbn -[Z.div Z.modulo Z.add is_digit digit_unit].
  by rewrite !digit_unit_is_digit.
Qed.



End DateFacts.

(** ** The pre-validation hook *)

Section AssignFacts.
Import JS JSDate Hook EventModel.
Local Open Scope N_scope.

Lemma hyphen_not_ws c : is_hyphen c = true -> is_whitespace c = false.
Proof.
  unfold is_hyphen, hyphen, is_whitespace. intros H. bool_to_prop. lia.
Qed.

Lemma trim_slugify ext title : trim (slugify ext title) = slugify ext title.
Proof.
  apply trim_id. pose proof (slugify_units ext title) as H.
  rewrite forallb_forall in H. apply List.Forall_forall. intros c Hc.
  specialize (H c Hc). unfold slug_unit in H. apply orb_true_iff in H as [H|H].
  - by apply az09_not_ws.
  - by apply hyphen_not_ws.
Qed.

Lemma trim_date_string t : trim (date_string t) = date_string t.
Proof.
  apply trim_id. eapply List.Forall_impl; [|apply date_string_units].
  intros c [H|[->| ->]]; [by apply digit_not_ws|done|done].
Qed.

Lemma trim_normalizeDate host s r :
  normalizeDate host s = Ok r -> trim r = r.
Proof. intros (t & _ & ->)%normalizeDate_ok. apply trim_date_string. Qed.

Lemma trim_normalizeTime s r : normalizeTime s = Ok r -> trim r = r.
Proof.
  intros (h & m & _ & Hh & Hm & ->)%normalizeTime_ok. apply trim_id.
  apply Forall_app. split; [|apply List.Forall_cons; [done|]].
  - eapply List.Forall_impl; [|apply two_digits_digit; lia]. apply digit_not_ws.
  - eapply List.Forall_impl; [|apply two_digits_digit; lia]. apply digit_not_ws.
Qed.

End AssignFacts.

Section HookFacts.
Import JS JSDate Hook EventModel.
Local Open Scope N_scope.
Variable lower_ext : jsstring -> N -> jsstring -> jsstring.
Variable host_parse : jsstring -> option Z.

Local Abbreviation slugify := (slugify lower_ext).
Local Abbreviation normalizeDate := (normalizeDate host_parse).
Local Abbreviation preValidate := (preValidate lower_ext host_parse).
Local Abbreviation slug_step := (slug_step lower_ext).
Local Abbreviation date_step := (date_step host_parse).

Lemma preValidate_steps d :
  preValidate d =
  match slug_step d with
  | (d1, Ok _) =>
      match date_step d1 with
      | (d2, Ok _) => time_step d2
      | (d2, Throw e) => (d2, Throw e)
      end
  | (d1, Throw e) => (d1, Throw e)
  end.
Proof.
  unfold EventModel.preValidate, slug_step, date_step, time_step,
    bind, get, ret, throw, modify, lift.
  destruct (isNew d || isModified "title" d).
  - destruct (slugify (title d)) as [|c s] eqn:E; [done|].
    set (d1 := assign_slug (c :: s) d).
    destruct (isModified "date" d1).
    + destruct (normalizeDate (date d1)) as [v|e]; [|done].
      set (d2 := assign_date v d1).
      destruct (isModified "time" d2); [|done].
      by destruct (normalizeTime (time d2)).
    + destruct (isModified "time" d1); [|done].
      by destruct (normalizeTime (time d1)).
  - destruct (isModified "date" d).
    + destruct (normalizeDate (date d)) as [v|e]; [|done].
      set (d2 := assign_date v d).
      destruct (isModified "time" d2); [|done].
      by destruct (normalizeTime (time d2)).
    + destruct (isModified "time" d); [|done].
      by destruct (normalizeTime (time d)).
Qed.

Lemma isModified_mark p q ch d (d' : EventDocument) :
  p <> q -> modifiedPaths d' = mark q ch d -> isModified p d' = isModified p d.
Proof.
  intros Hpq Hmark. unfold isModified. rewrite Hmark. unfold mark.
  destruct (isNew d || ch); [|done].
  apply bool_decide_ext. rewrite elem_of_union, elem_of_singleton.
  intuition congruence.
Qed.


Lemma same_other_fields_refl d : same_other_fields d d.
Proof. by repeat split. Qed.

Lemma same_other_fields_trans d1 d2 d3 :
  same_other_fields d1 d2 -> same_other_fields d2 d3 -> same_other_fields d1 d3.
Proof. unfold same_other_fields. intros H1 H2. intuition congruence. Qed.

Lemma assign_slug_fields v d :
  slug (assign_slug v d) = trim v
  /\ date (assign_slug v d) = date d /\ time (assign_slug v d) = time d
  /\ isModified "date" (assign_slug v d) = isModified "date" d
  /\ isModified "time" (assign_slug v d) = isModified "time" d
  /\ same_other_fields d (assign_slug v d).
Proof.
  split_and?; try reflexivity.
  - eapply isModified_mark; [|reflexivity]; done.
  - eapply isModified_mark; [|reflexivity]; done.
  - by repeat split.
Qed.

Lemma assign_date_fields v d :
  date (assign_date v d) = trim v
  /\ slug (assign_date v d) = slug d /\ time (assign_date v d) = time d
  /\ isModified "time" (assign_date v d) = isModified "time" d
  /\ same_other_fields d (assign_date v d).
Proof.
  split_and?; try reflexivity.
  - eapply isModified_mark; [|reflexivity]; done.
  - by repeat split.
Qed.

Lemma assign_time_fields v d :
  time (assign_time v d) = trim v
  /\ slug (assign_time v d) = slug d /\ date (assign_time v d) = date d
  /\ same_other_fields d (assign_time v d).
Proof. split_and?; try reflexivity. by repeat split. Qed.

Lemma slug_step_ok d d1 u :
  slug_step d = (d1, Ok u) ->
  slug d1 = (if isNew d || isModified "title" d then slugify (title d) else slug d)
  /\ date d1 = date d /\ time d1 = time d
  /\ isModified "date" d1 = isModified "date" d
  /\ isModified "time" d1 = isModified "time" d
  /\ same_other_fields d d1.
Proof.
  unfold EventModel.slug_step. destruct (isNew d || isModified "title" d).
  - destruct (slugify (title d)) as [|c s] eqn:E; [done|]. intros [= <- _].
    rewrite <- E.
    destruct (assign_slug_fields (slugify (title d)) d) as (-> & H).
    by rewrite trim_slugify.
  - intros [= <- _]. split_and?; try reflexivity. apply same_other_fields_refl.
Qed.

Lemma slug_step_throw d d1 e :
  slug_step d = (d1, Throw e) -> d1 = d.
Proof.
  unfold EventModel.slug_step. destruct (isNew d || isModified "title" d); [|done].
  destruct (slugify (title d)); [|done]. by intros [= <- _].
Qed.

Lemma date_step_ok d d1 u :
  date_step d = (d1, Ok u) ->
  (if isModified "date" d then normalizeDate (date d) = Ok (date d1)
   else date d1 = date d)
  /\ slug d1 = slug d /\ time d1 = time d
  /\ isModified "time" d1 = isModified "time" d
  /\ same_other_fields d d1.
Proof.
  unfold EventModel.date_step. destruct (isModified "date" d).
  - destruct (normalizeDate (date d)) as [v|e] eqn:E; [|done]. intros [= <- _].
    destruct (assign_date_fields v d) as (-> & H).
    by rewrite (trim_normalizeDate _ _ _ E).
  - intros [= <- _]. split_and?; try reflexivity. apply same_other_fields_refl.
Qed.

Lemma date_step_throw d d1 e :
  date_step d = (d1, Throw e) ->
  d1 = d /\ isModified "date" d = true /\ normalizeDate (date d) = Throw e.
Proof.
  unfold EventModel.date_step. destruct (isModified "date" d); [|done].
  destruct (normalizeDate (date d)); [done|]. by intros [= <- <-].
Qed.

Lemma time_step_ok d d1 u :
  time_step d = (d1, Ok u) ->
  (if isModified "time" d then normalizeTime (time d) = Ok (time d1)
   else time d1 = time d)
  /\ slug d1 = slug d /\ date d1 = date d
  /\ same_other_fields d d1.
Proof.
  unfold time_step. destruct (isModified "time" d).
  - destruct (normalizeTime (time d)) as [v|e] eqn:E; [|done]. intros [= <- _].
    destruct (assign_time_fields v d) as (-> & H).
    by rewrite (trim_normalizeTime _ _ E).
  - intros [= <- _]. split_and?; try reflexivity. apply same_other_fields_refl.
Qed.

Lemma time_step_throw d d1 e :
  time_step d = (d1, Throw e) ->
  d1 = d /\ isModified "time" d = true /\ normalizeTime (time d) = Throw e.
Proof.
  unfold time_step. destruct (isModified "time" d); [|done].
  destruct (normalizeTime (time d)); [done|]. by intros [= <- <-].
Qed.

Lemma preValidate_ok d d' u :
  preValidate d = (d', Ok u) ->
  slug d' = (if isNew d || isModified "title" d then slugify (title d) else slug d)
  /\ (if isModified "date" d then normalizeDate (date d) = Ok (date d')
      else date d' = date d)
  /\ (if isModified "time" d then normalizeTime (time d) = Ok (time d')
      else time d' = time d)
  /\ same_other_fields d d'.
Proof.
  rewrite preValidate_steps.
  destruct (slug_step d) as [d1 [u1|e1]] eqn:E1; [|done].
  destruct (date_step d1) as [d2 [u2|e2]] eqn:E2; [|done].
  intros E3.
  apply slug_step_ok in E1 as (S1 & D1 & T1 & MD1 & MT1 & O1).
  apply date_step_ok in E2 as (D2 & S2 & T2 & MT2 & O2).
  apply time_step_ok in E3 as (T3 & S3 & D3 & O3).
  rewrite MD1, D1 in D2. rewrite MT2, MT1, T2, T1 in T3.
  split; [congruence|]. split; [|split].
  - destruct (isModified "date" d); congruence.
  - done.
  - eauto using same_other_fields_trans.
Qed.

Lemma preValidate_untouched d :
  isNew d = false -> isModified "title" d = false ->
  isModified "date" d = false -> isModified "time" d = false ->
  preValidate d = (d, Ok tt).
Proof.
  intros H1 H2 H3 H4. rewrite preValidate_steps.
  unfold EventModel.slug_step. rewrite H1, H2. cbn [orb].
  unfold EventModel.date_step. rewrite H3.
  unfold time_step. by rewrite H4.
Qed.

Lemma slug_step_new d :
  isNew d || isModified "title" d = true -> slugify (title d) <> [] ->
  slug_step d = (assign_slug (slugify (title d)) d, Ok tt).
Proof.
  intros H1 H2. unfold EventModel.slug_step. rewrite H1.
  by destruct (slugify (title d)).
Qed.

Lemma preValidate_date_fails d e :
  isNew d || isModified "title" d = true -> slugify (title d) <> [] ->
  isModified "date" d = true -> normalizeDate (date d) = Throw e ->
  exists d', preValidate d = (d', Throw e)
    /\ slug d' = slugify (title d) /\ date d' = date d /\ time d' = time d.
Proof.
  intros H1 H2 H3 H4. rewrite preValidate_steps, slug_step_new by done.
  set (d1 := assign_slug (slugify (title d)) d).
  assert (isModified "date" d1 = true) as M
    by (unfold d1;
        destruct (assign_slug_fields (slugify (title d)) d)
          as (_ & _ & _ & -> & _); done).
  unfold EventModel.date_step. rewrite M.
  change (date d1) with (date d). rewrite H4.
  exists d1. split; [done|]. simpl. by rewrite trim_slugify.
Qed.

Lemma preValidate_slug_fails d :
  isNew d || isModified "title" d = true -> slugify (title d) = [] ->
  preValidate d = (d, Throw (Error "Unable to generate slug from title")).
Proof.
  intros H1 H2. rewrite preValidate_steps. unfold EventModel.slug_step.
  by rewrite H1, H2.
Qed.

Lemma preValidate_time_fails d v e :
  isNew d = false -> isModified "title" d = false ->
  isModified "date" d = true -> normalizeDate (date d) = Ok v ->
  isModified "time" d = true -> normalizeTime (time d) = Throw e ->
  exists d', preValidate d = (d', Throw e)
    /\ slug d' = slug d /\ date d' = v /\ time d' = time d.
Proof.
  intros H1 H2 H3 H4 H5 H6. rewrite preValidate_steps.
  unfold EventModel.slug_step. rewrite H1, H2. simpl.
  unfold EventModel.date_step. rewrite H3, H4.
  set (d2 := assign_date v d).
  assert (isModified "time" d2 = true) as M
    by (unfold d2;
        destruct (assign_date_fields v d) as (_ & _ & _ & -> & _); done).
  unfold time_step. rewrite M. change (time d2) with (time d). rewrite H6.
  exists d2. split; [done|]. simpl. by rewrite (trim_normalizeDate _ _ _ H4).
Qed.

(** The hook succeeds exactly when every step it has to take does. *)
Lemma preValidate_succeeds_iff d :
  (exists d', preValidate d = (d', Ok tt))
  <-> (isNew d || isModified "title" d = true -> slugify (title d) <> [])
      /\ (isModified "date" d = true ->
          exists v, normalizeDate (date d) = Ok v)
      /\ (isModified "time" d = true ->
          exists v, normalizeTime (time d) = Ok v).
Proof.
  split.
  - intros (d' & Hrun).
    pose proof (preValidate_ok _ _ _ Hrun) as (S & D & T & O).
    split_and!.
    + intros Hr Hs. rewrite preValidate_steps in Hrun.
      unfold EventModel.slug_step in Hrun. by rewrite Hr, Hs in Hrun.
    + intros Hm. rewrite Hm in D. eauto.
    + intros Hm. rewrite Hm in T. eauto.
  - intros (Hs & Hd & Ht). rewrite preValidate_steps.
    assert (exists da, slug_step d = (da, Ok tt)) as (da & E1).
    { unfold EventModel.slug_step.
      destruct (isNew d || isModified "title" d); [|eauto].
      specialize (Hs eq_refl). destruct (slugify (title d)); [done|eauto]. }
    rewrite E1. apply slug_step_ok in E1 as (_ & D1 & T1 & MD1 & MT1 & _).
    assert (exists db, date_step da = (db, Ok tt)) as (db & E2).
    { unfold EventModel.date_step. rewrite MD1, D1.
      destruct (isModified "date" d); [|eauto].
      destruct (Hd eq_refl) as (v & ->). eauto. }
    rewrite E2. apply date_step_ok in E2 as (_ & _ & T2 & MT2 & _).
    unfold time_step. rewrite MT2, MT1, T2, T1.
    destruct (isModified "time" d); [|eauto].
    destruct (Ht eq_refl) as (v & ->). eauto.
Qed.

Lemma preValidate_runs d :
  (isNew d || isModified "title" d = true -> slugify (title d) <> []) ->
  (isModified "date" d = true -> exists v, normalizeDate (date d) = Ok v) ->
  (isModified "time" d = true -> exists v, normalizeTime (time d) = Ok v) ->
  exists d',
    preValidate d = (d', Ok tt)
    /\ slug d' = (if isNew d || isModified "title" d
                  then slugify (title d) else slug d)
    /\ (if isModified "date" d then normalizeDate (date d) = Ok (date d')
        else date d' = date d)
    /\ (if isModified "time" d then normalizeTime (time d) = Ok (time d')
        else time d' = time d)
    /\ same_other_fields d d'.
Proof.
  intros Hs Hd Ht.
  destruct (proj2 (preValidate_succeeds_iff d)) as (d' & E); [done|].
  exists d'. split; [done|]. by eapply preValidate_ok.
Qed.
End HookFacts.

(** ** The cached connection *)

Section CacheFacts.
Import JS Mongodb.

Lemma cache_inv_start : cache_inv start.
Proof. split; simpl; try done. lia. Qed.

Lemma take_awaiting_In c l p rest :
  take_awaiting c l = Some (p, rest) ->
  In (c, p) l /\ (forall x, In x rest -> In x l).
Proof.
  revert p rest. induction l as [|[c' q] l IH]; intros p rest; simpl; [done|].
  destruct (Nat.eqb_spec c' c) as [->|Hne].
  - intros [= -> ->]. split; [by left|]. intros x Hx. by right.
  - destruct (take_awaiting c l) as [[q' r']|]; [|done].
    intros [= -> <-]. destruct (IH _ _ eq_refl) as [H1 H2].
    split; [by right|]. intros x [<-|Hx]; [by left|right; auto].
Qed.

Lemma take_awaiting_total c p l :
  In (c, p) l -> exists q rest, take_awaiting c l = Some (q, rest).
Proof.
  induction l as [|[c' q] l IH]; simpl; [done|].
  intros [[= -> ->]|Hin].
  - rewrite Nat.eqb_refl. eauto.
  - destruct (Nat.eqb c' c); [eauto|].
    destruct (IH Hin) as (q' & r' & ->). eauto.
Qed.

Lemma cache_inv_call c w : cache_inv w -> cache_inv (call c w).
Proof.
  intros Hw. unfold call.
  destruct (conn (cached w)) as [m|] eqn:Ec; destruct Hw as [Hp Hs Hc Ha Hd].
  - split; simpl; auto.
    intros c' o [Hin|[[= <- <-]|[]]]%in_app_or; eauto.
  - destruct (connects w) as [|x l] eqn:El.
    + rewrite Hp. split; simpl; try done.
      * intros c' p [Hin|[[= <- <-]|[]]]%in_app_or; [|done].
        by destruct (Ha _ _ Hin).
      * intros c' o Hin. by specialize (Hd _ _ Hin).
    + rewrite Hp. split; simpl; rewrite ?El; try done.
      intros c' p [Hin|[[= <- <-]|[]]]%in_app_or; [|done].
        split; [|done]. by destruct (Ha _ _ Hin).
Qed.

Lemma cache_inv_settle p o w w' :
  cache_inv w -> settle p o w = Some w' -> cache_inv w'.
Proof.
  intros [Hp Hs Hc Ha Hd]. unfold settle.
  destruct (connects w !! p) as [[|o']|] eqn:El; try done. intros [= <-].
  destruct (connects w) as [|x [|y l]] eqn:Ew; simpl in *; [done| |lia].
  destruct p as [|p]; [|done]. simpl in El. injection El as ->.
  split; simpl; try done.
  - intros m Hm. by specialize (Hc _ Hm).
  - intros c q Hin. destruct (Ha _ _ Hin). done.
  - intros c o' Hin. by specialize (Hd _ _ Hin).
Qed.

Lemma cache_inv_resume c w w' :
  cache_inv w -> resume c w = Some w' -> cache_inv w'.
Proof.
  intros [Hp Hs Hc Ha Hd]. unfold resume.
  destruct (take_awaiting c (awaiting w)) as [[p rest]|] eqn:Et; [|done].
  apply take_awaiting_In in Et as [Hin Hrest].
  destruct (Ha _ _ Hin) as [-> Hne].
  destruct (connects w) as [|x [|y l]] eqn:Ew; simpl in *; [done| |lia].
  destruct x as [|[m|e]]; [done| |]; intros [= <-]; split; simpl; rewrite ?Ew; try done.
  - by intros m' [= ->].
  - intros c' p Hx. split; [|done]. by destruct (Ha _ _ (Hrest _ Hx)).
  - intros c' o [Hx|[[= <- <-]|[]]]%in_app_or; eauto.
  - intros c' p Hx. split; [|done]. by destruct (Ha _ _ (Hrest _ Hx)).
  - intros c' o [Hx|[[= <- <-]|[]]]%in_app_or; eauto.
Qed.

Lemma cache_inv_step w ev w' :
  cache_inv w -> step w ev = Some w' -> cache_inv w'.
Proof.
  intros Hw. destruct ev as [c|p o|c|]; simpl.
  - intros [= <-]. by apply cache_inv_call.
  - by apply cache_inv_settle.
  - by apply cache_inv_resume.
  - intros [= <-]. destruct Hw. by split.
Qed.

Lemma cache_inv_run tr : forall w w',
  cache_inv w -> run w tr = Some w' -> cache_inv w'.
Proof.
  induction tr as [|ev tr IH]; intros w w' Hw; simpl.
  - by intros [= <-].
  - destruct (step w ev) as [w1|] eqn:E; [|done].
    apply IH. by eapply cache_inv_step.
Qed.

Lemma run_app w t1 t2 :
  run w (t1 ++ t2) =
  match run w t1 with Some w' => run w' t2 | None => None end.
Proof.
  revert w. induction t1 as [|ev t1 IH]; intros w; simpl; [done|].
  destruct (step w ev); [apply IH|done].
Qed.

(** A settled attempt stays as it is. *)
Lemma settled_step w ev w' o :
  cache_inv w -> connects w = [Settled o] -> step w ev = Some w' ->
  connects w' = [Settled o].
Proof.
  intros Hw Ec. destruct ev as [c|p o'|c|]; simpl.
  - intros [= <-]. unfold call.
    destruct (conn (cached w)); [done|].
    pose proof (inv_promise _ Hw) as Hp. rewrite Ec in Hp. by rewrite Hp.
  - unfold settle. rewrite Ec. by destruct p as [|[|p]].
  - unfold resume. destruct (take_awaiting c (awaiting w)) as [[p rest]|]; [|done].
    destruct (connects w !! p) as [[|[m|e]]|]; try done; by intros [= <-].
  - by intros [= <-].
Qed.

Lemma settled_run tr : forall w w' o,
  cache_inv w -> connects w = [Settled o] -> run w tr = Some w' ->
  connects w' = [Settled o].
Proof.
  induction tr as [|ev tr IH]; intros w w' o Hw Ec; simpl.
  - by intros [= <-].
  - destruct (step w ev) as [w1|] eqn:E; [|done].
    apply IH; [by eapply cache_inv_step|by eapply settled_step].
Qed.

Lemma resume_settled c p w o :
  cache_inv w -> connects w = [Settled o] -> In (c, p) (awaiting w) ->
  exists w', step w (Resume c) = Some w'
    /\ completed w' = completed w ++ [(c, o)]
    /\ connects w' = connects w.
Proof.
  intros Hw Ec Hin. simpl. unfold resume.
  destruct (take_awaiting_total _ _ _ Hin) as (q & rest & Et). rewrite Et.
  apply take_awaiting_In in Et as [Hq _].
  destruct (inv_awaiting _ Hw _ _ Hq) as [-> _]. rewrite Ec. simpl.
  destruct o as [m|e]; eauto.
Qed.

(** Calls made while the attempt is in flight only queue up. *)
Lemma run_calls_pending cs : forall a d,
  run {| cached := {| conn := None; promise := Some 0%nat |};
         connects := [Pending]; awaiting := a; completed := d |}
      (map Call cs)
  = Some {| cached := {| conn := None; promise := Some 0%nat |};
            connects := [Pending]; awaiting := a ++ waiting_on 0 cs;
            completed := d |}.
Proof.
  induction cs as [|c cs IH]; intros a d; simpl.
  - by rewrite app_nil_r.
  - unfold call at 1. simpl. rewrite IH. by rewrite <- app_assoc.
Qed.

Lemma run_resumes o cs : forall cn rest d,
  run {| cached := {| conn := cn; promise := Some 0%nat |};
         connects := [Settled o]; awaiting := waiting_on 0 cs ++ rest;
         completed := d |}
      (map Resume cs)
  = Some {| cached :=
              {| conn := match o, cs with
                         | Fulfilled m, _ :: _ => Some m
                         | _, _ => cn
                         end;
                 promise := Some 0%nat |};
            connects := [Settled o]; awaiting := rest;
            completed := d ++ delivered o cs |}.
Proof.
  induction cs as [|c cs IH]; intros cn rest d; simpl.
  - rewrite app_nil_r. by destruct o.
  - unfold resume at 1. simpl. rewrite Nat.eqb_refl. simpl.
    destruct o as [m|e]; simpl; rewrite IH, <- app_assoc; simpl; [|done].
    by destruct cs.
Qed.

Lemma run_concurrent c cs o :
  run start (map Call (c :: cs) ++ Settle 0 o :: map Resume (c :: cs))
  = Some {| cached :=
              {| conn := match o with Fulfilled m => Some m | Rejected _ => None end;
                 promise := Some 0%nat |};
            connects := [Settled o]; awaiting := [];
            completed := delivered o (c :: cs) |}.
Proof.
  rewrite run_app.
  change (run start (map Call (c :: cs))) with
    (run {| cached := {| conn := None; promise := Some 0%nat |};
            connects := [Pending]; awaiting := [] ++ waiting_on 0 [c];
            completed := [] |} (map Call cs)).
  rewrite run_calls_pending. cbv beta iota.
  change (([] ++ waiting_on 0 [c]) ++ waiting_on 0 cs) with (waiting_on 0 (c :: cs)).
  rewrite <- (app_nil_r (waiting_on 0 (c :: cs))).
  change (run ?w (Settle 0 o :: ?tr)) with
    (match settle 0 o w with Some w' => run w' tr | None => None end).
  unfold settle. cbn [connects lookup list_lookup]. cbv beta iota.
  cbn [cached awaiting completed connects insert list_insert].
  rewrite run_resumes. simpl. by destruct o.
Qed.

End CacheFacts.

(** ** The pre-save hook of Booking *)

Section BookingFacts.
Import JS Hook BookingModel.

Lemma preSave_unmodified b st :
  BookingModel.isModified "eventId" b = false -> preSave b st = (st, Ok tt).
Proof. intros H. unfold preSave. by rewrite H. Qed.

Lemma preSave_missing b st :
  BookingModel.isModified "eventId" b = true -> eventId b ∉ events st ->
  preSave b st =
    ({| events := events st; bookings := bookings st;
        event_queries := event_queries st ++ [eventId b] |},
     Throw integrity_error).
Proof.
  intros H Hn. unfold preSave, bind, Event_exists, throw. rewrite H. simpl.
  by rewrite bool_decide_eq_false_2.
Qed.

Lemma preSave_present b st :
  BookingModel.isModified "eventId" b = true -> eventId b ∈ events st ->
  preSave b st =
    ({| events := events st; bookings := bookings st;
        event_queries := event_queries st ++ [eventId b] |},
     Ok tt).
Proof.
  intros H Hn. unfold preSave, bind, Event_exists, ret. rewrite H. simpl.
  by rewrite bool_decide_eq_true_2.
Qed.

Lemma save_unfold validate b st :
  save validate b st =
  match validate b with
  | Ok _ =>
      match preSave b st with
      | (st', Ok _) => insert_booking b st'
      | (st', Throw e) => (st', Throw e)
      end
  | Throw e => (st, Throw e)
  end.
Proof.
  unfold save, bind, lift. destruct (validate b); [|done].
  by destruct (preSave b st) as [st' [u|e]].
Qed.
End BookingFacts.
(** * The stated properties *)

Section ConnectionClaims.
Import JS Mongodb.

(** C1.  In one process, whatever calls of [connectToDatabase], settlements
    by the driver, resumptions and module reloads happen, and in whatever
    order: at most one connection attempt is started; every connection
    delivered to a caller is the one that attempt resolved with, so any two
    callers hold the same one; and once the attempt has resolved, every
    suspended caller can resume and is given it.  In particular, when any
    number of callers call before the attempt resolves, exactly one attempt
    is made and each of them receives its connection. *)
Theorem connect_once :
  (forall tr w, run start tr = Some w ->
     (length (connects w) <= 1)%nat
     /\ (forall c m, In (c, Fulfilled m) (completed w) ->
           connects w = [Settled (Fulfilled m)])
     /\ (forall c1 m1 c2 m2,
           In (c1, Fulfilled m1) (completed w) ->
           In (c2, Fulfilled m2) (completed w) -> m1 = m2)
     /\ (forall m c p,
           connects w = [Settled (Fulfilled m)] -> In (c, p) (awaiting w) ->
           exists w', step w (Resume c) = Some w'
             /\ completed w' = completed w ++ [(c, Fulfilled m)]
             /\ connects w' = connects w))
  /\ (forall c cs m, exists w,
        run start (map Call (c :: cs) ++ Settle 0 (Fulfilled m)
                     :: map Resume (c :: cs)) = Some w
        /\ length (connects w) = 1%nat
        /\ completed w = delivered (Fulfilled m) (c :: cs)
        /\ awaiting w = []).
Proof.
  split.
  - intros tr w Hrun.
    pose proof (cache_inv_run tr _ _ cache_inv_start Hrun) as Hw.
    split_and!.
    + apply (inv_single _ Hw).
    + intros c m. apply (inv_completed _ Hw).
    + intros c1 m1 c2 m2 H1 H2.
      apply (inv_completed _ Hw) in H1, H2. congruence.
    + intros m c p Ec Hin. by eapply resume_settled.
  - intros c cs m. eexists. split; [apply run_concurrent|]. done.
Qed.

Lemma connect_once_witness :
  exists w,
    run start [Call 1; Call 2; Reload; Settle 0 (Fulfilled 7); Resume 2;
               Call 3; Resume 1] = Some w
    /\ (length (connects w) <= 1)%nat.
Proof.
  eexists. split; [vm_compute; reflexivity|].
  apply (proj1 connect_once
           [Call 1; Call 2; Reload; Settle 0 (Fulfilled 7); Resume 2;
            Call 3; Resume 1]).
  vm_compute. reflexivity.
Defined.

(** C8.  Once the single connection attempt has been rejected with an error:
    every call that has finished was given that error; every suspended call
    resumes into that error; whatever happens afterwards the cache still
    holds that same rejected attempt, no connection is cached and no second
    attempt exists; and every later call fails with the same error. *)
Theorem connect_failure_sticks tr w e :
  run start tr = Some w ->
  connects w !! 0%nat = Some (Settled (Rejected e)) ->
  (forall c o, In (c, o) (completed w) -> o = Rejected e)
  /\ (forall c p, In (c, p) (awaiting w) ->
        exists w', step w (Resume c) = Some w'
          /\ completed w' = completed w ++ [(c, Rejected e)])
  /\ (forall tr' w', run w tr' = Some w' ->
        connects w' = [Settled (Rejected e)]
        /\ promise (cached w') = Some 0%nat
        /\ conn (cached w') = None)
  /\ (forall c, exists w',
        run w [Call c; Resume c] = Some w'
        /\ connects w' = [Settled (Rejected e)]
        /\ completed w' = completed w ++ [(c, Rejected e)]).
Proof.
  intros Hrun Hrej.
  pose proof (cache_inv_run tr _ _ cache_inv_start Hrun) as Hw.
  assert (connects w = [Settled (Rejected e)]) as Ec.
  { pose proof (inv_single _ Hw) as Hl.
    destruct (connects w) as [|x [|y l]]; simpl in *; [done| |lia].
    by injection Hrej as ->. }
  assert (forall w', cache_inv w' -> connects w' = [Settled (Rejected e)] ->
            promise (cached w') = Some 0%nat /\ conn (cached w') = None) as Hc.
  { intros w' Hw' Ec'. split.
    - rewrite (inv_promise _ Hw'). by rewrite Ec'.
    - destruct (conn (cached w')) as [m|] eqn:Em; [|done].
      apply (inv_conn _ Hw') in Em. congruence. }
  split_and!.
  - intros c o Hin. apply (inv_completed _ Hw) in Hin. congruence.
  - intros c p Hin.
    destruct (resume_settled c p w _ Hw Ec Hin) as (w' & H1 & H2 & _). eauto.
  - intros tr' w' Hrun'.
    pose proof (cache_inv_run tr' _ _ Hw Hrun') as Hw'.
    pose proof (settled_run tr' _ _ _ Hw Ec Hrun') as Ec'.
    split; [done|]. by apply Hc.
  - intros c.
    pose proof (cache_inv_call c _ Hw) as Hw1.
    assert (step w (Call c) = Some (call c w)) as Hs by done.
    pose proof (settled_step _ _ _ _ Hw Ec Hs) as Ec1.
    assert (In (c, 0%nat) (awaiting (call c w)) /\ completed (call c w) = completed w)
      as [Hin Hd].
    { unfold call. destruct (Hc _ Hw Ec) as [Hp Hn]. rewrite Hn, Hp. simpl.
      split; [|done]. apply in_or_app. right. by left. }
    destruct (resume_settled c _ _ _ Hw1 Ec1 Hin) as (w' & H1 & H2 & H3).
    exists w'. simpl in *. rewrite H1. split; [done|].
    split; [congruence|]. by rewrite H2, Hd.
Qed.

Lemma connect_failure_sticks_witness :
  exists w,
    run start [Call 1; Call 2; Settle 0 (Rejected (Error "ECONNREFUSED"));
               Resume 1] = Some w
    /\ forall c o, In (c, o) (completed w) ->
         o = Rejected (Error "ECONNREFUSED").
Proof.
  eexists. split; [vm_compute; reflexivity|].
  apply (connect_failure_sticks
           [Call 1; Call 2; Settle 0 (Rejected (Error "ECONNREFUSED"));
            Resume 1]); vm_compute; reflexivity.
Defined.

End ConnectionClaims.

Section EventClaims.
Import JS JSDate Hook EventModel.
Local Open Scope N_scope.

(** C2.  For every title with at least one ASCII letter or digit, [slugify]
    returns a string that is not empty, consists only of [a-z], [0-9] and
    hyphens (so it is lowercase), neither starts nor ends with a hyphen, has
    no two hyphens in a row, and is therefore a sequence of one or more words
    of [a-z0-9] joined by single hyphens.  [slugify("Hello, World!")] is
    ["hello-world"], and [slugify("   ---   ")] is the empty string. *)
Theorem slugify_well_formed (lower_ext : jsstring -> N -> jsstring -> jsstring) :
  (forall title,
     (exists c, In c title /\ is_alnum c = true) ->
     let s := slugify lower_ext title in
     s <> []
     /\ Forall (fun c => is_az09 c = true \/ c = hyphen) s
     /\ head s <> Some hyphen
     /\ last s <> Some hyphen
     /\ (forall l1 l2, s <> l1 ++ [hyphen; hyphen] ++ l2)
     /\ exists words,
          words <> [] /\ Forall word words /\ s = join_hyphen words)
  /\ slugify lower_ext (js "Hello, World!") = js "hello-world"
  /\ slugify lower_ext (js "   ---   ") = [].
Proof.
  split; [|split; reflexivity].
  intros title Halnum s.
  pose proof (slugify_units lower_ext title) as Hu.
  pose proof (slugify_start lower_ext title) as Hs.
  pose proof (slugify_end lower_ext title) as He.
  pose proof (slugify_no_double lower_ext title) as Hd.
  assert (s <> []) as Hne.
  { destruct (slugify_has_az09 lower_ext title Halnum) as (c & Hin & _).
    intros E. unfold s in E. by rewrite E in Hin. }
  fold s in Hu, Hs, He, Hd. split_and!.
  - done.
  - rewrite forallb_forall in Hu. apply List.Forall_forall. intros c Hc.
    specialize (Hu c Hc). unfold slug_unit in Hu.
    apply orb_true_iff in Hu as [Hu|Hu]; [by left|right].
    by apply N.eqb_eq in Hu.
  - by apply starts_with_hyphen_head.
  - by apply ends_with_hyphen_last.
  - intros l1 l2. by apply no_double_hyphen_adjacent.
  - by apply hyphen_separated.
Qed.

Lemma slugify_well_formed_witness :
  (exists c, In c (js "Next.js Conf 2025") /\ is_alnum c = true)
  /\ slugify ascii_only (js "Next.js Conf 2025") <> [].
Proof.
  assert (exists c, In c (js "Next.js Conf 2025") /\ is_alnum c = true) as H.
  { exists 78. split; [left; reflexivity|reflexivity]. }
  split; [exact H|].
  exact (proj1 (proj1 (slugify_well_formed ascii_only) _ H)).
Defined.

(** C3, as stated, fails: [" 9:00 "] does not have the form H:MM or HH:MM,
    yet [normalizeTime] accepts it. *)
Lemma normalizeTime_untrimmed_counterexample :
  normalizeTime (js " 9:00 ") = Ok (js "09:00")
  /\ ~ exists h m, is_time_text (js " 9:00 ") h m.
Proof.
  split; [reflexivity|].
  intros (h & m & (g1 & g2 & M & _)%is_time_text_match). discriminate M.
Qed.

(** C3, amended.  [normalizeTime] succeeds exactly on the inputs that, once
    leading and trailing whitespace is trimmed, have the form H:MM or HH:MM
    with hour at most 23 and minute at most 59; the result is the hour and
    the minute with two digits each.  It fails with the format error exactly
    when the trimmed input does not have that form, and with the range error
    exactly when it has and the hour exceeds 23 or the minute exceeds 59.
    ["9:00"] gives ["09:00"], ["23:59"] gives ["23:59"], ["24:00"] is a
    range error and ["9:0"] a format error. *)
Theorem normalizeTime_spec :
  (forall s r,
     normalizeTime s = Ok r <->
     exists h m, is_time_text (trim s) h m /\ h <= 23 /\ m <= 59
       /\ r = two_digits h ++ colon :: two_digits m)
  /\ (forall s,
        normalizeTime s = Throw format_error <->
        ~ exists h m, is_time_text (trim s) h m)
  /\ (forall s,
        normalizeTime s = Throw range_error <->
        exists h m, is_time_text (trim s) h m /\ (23 < h \/ 59 < m))
  /\ normalizeTime (js "9:00") = Ok (js "09:00")
  /\ normalizeTime (js "23:59") = Ok (js "23:59")
  /\ normalizeTime (js "24:00") = Throw range_error
  /\ normalizeTime (js "9:0") = Throw format_error.
Proof.
  split_and!; try reflexivity.
  - apply normalizeTime_ok.
  - apply normalizeTime_format.
  - apply normalizeTime_range.
Qed.

Lemma normalizeTime_spec_witness :
  normalizeTime (js "7:05") = Ok (two_digits 7 ++ colon :: two_digits 5).
Proof.
  apply (proj1 normalizeTime_spec (js "7:05")).
  exists 7, 5. split; [|split; [lia|split; [lia|reflexivity]]].
  exists [55], [48; 53].
  split; [reflexivity|]. split; [by left|]. split; [reflexivity|].
  split; [repeat constructor|]. split; [repeat constructor|done].
Defined.

(** C9.  [normalizeTime] trims before it matches: a valid time surrounded
    by whitespace normalizes to what the time alone normalizes to.
    [" 9:00 "] gives ["09:00"]. *)
Theorem normalizeTime_trims :
  (forall l1 t l2 r,
     forallb is_whitespace l1 = true -> forallb is_whitespace l2 = true ->
     normalizeTime t = Ok r -> normalizeTime (l1 ++ t ++ l2) = Ok r)
  /\ normalizeTime (js " 9:00 ") = Ok (js "09:00").
Proof.
  split; [|reflexivity].
  intros l1 t l2 r H1 H2 Ht. by rewrite normalizeTime_surrounded.
Qed.

Lemma normalizeTime_trims_witness :
  normalizeTime ([9; 32] ++ js "21:30" ++ [10]) = Ok (js "21:30").
Proof.
  apply (proj1 normalizeTime_trims); reflexivity.
Defined.

(** C6 at the input ["+010000-01-01"], a date of the year 10000 in the
    standard's date-only form: [normalizeDate] succeeds on every host and
    returns the input, thirteen units with a sign and a six-digit year,
    which is not of the form YYYY-MM-DD. *)
Theorem normalizeDate_expanded_year (host_parse : jsstring -> option Z) :
  normalizeDate host_parse (js "+010000-01-01") = Ok (js "+010000-01-01")
  /\ is_YYYY_MM_DD (js "+010000-01-01") = false.
Proof. split; reflexivity. Qed.

(** C7.  Both normalizers return their own results unchanged: if
    [normalizeDate] succeeds on an input with result [r], it succeeds on [r]
    with result [r], and likewise [normalizeTime]. *)
Theorem normalizers_idempotent (host_parse : jsstring -> option Z) :
  (forall s r,
     normalizeDate host_parse s = Ok r -> normalizeDate host_parse r = Ok r)
  /\ (forall s r, normalizeTime s = Ok r -> normalizeTime r = Ok r).
Proof.
  split.
  - apply normalizeDate_idempotent.
  - apply normalizeTime_idempotent.
Qed.

Lemma normalizers_idempotent_witness :
  normalizeDate no_other_format (js "2024-02-01") = Ok (js "2024-02-01")
  /\ normalizeTime (js "09:00") = Ok (js "09:00").
Proof.
  split.
  - apply (proj1 (normalizers_idempotent no_other_format) (js "2024-02")).
    reflexivity.
  - apply (proj2 (normalizers_idempotent no_other_format) (js " 9:00 ")).
    reflexivity.
Defined.

(** C4.  The hook regenerates the slug from the title if the document is
    new or its title was modified, and leaves it as it was otherwise; it
    replaces the date by its normalized form if the date was modified, and
    leaves it as it was otherwise; likewise the time; it changes no other
    field.  This is what any successful run has done; and the hook does run
    successfully, with this result, whenever each step it has to take can
    succeed: a slug can be generated if one is called for, the date
    normalizes if modified, the time normalizes if modified.  In particular,
    for a stored document of which neither title, date nor time was modified
    (one whose description alone was edited, say) the hook succeeds and
    leaves the document as it is. *)
Theorem preValidate_regenerates
  (lower_ext : jsstring -> N -> jsstring -> jsstring)
  (host_parse : jsstring -> option Z) (d : EventDocument) :
  (forall d' u,
     preValidate lower_ext host_parse d = (d', Ok u) ->
     slug d' = (if isNew d || isModified "title" d
                then slugify lower_ext (title d) else slug d)
     /\ (if isModified "date" d
         then normalizeDate host_parse (date d) = Ok (date d')
         else date d' = date d)
     /\ (if isModified "time" d
         then normalizeTime (time d) = Ok (time d')
         else time d' = time d)
     /\ same_other_fields d d')
  /\ ((isNew d || isModified "title" d = true ->
       slugify lower_ext (title d) <> []) ->
      (isModified "date" d = true ->
       exists v, normalizeDate host_parse (date d) = Ok v) ->
      (isModified "time" d = true ->
       exists v, normalizeTime (time d) = Ok v) ->
      exists d',
        preValidate lower_ext host_parse d = (d', Ok tt)
        /\ slug d' = (if isNew d || isModified "title" d
                      then slugify lower_ext (title d) else slug d)
        /\ (if isModified "date" d
            then normalizeDate host_parse (date d) = Ok (date d')
            else date d' = date d)
        /\ (if isModified "time" d
            then normalizeTime (time d) = Ok (time d')
            else time d' = time d)
        /\ same_other_fields d d')
  /\ (isNew d = false -> isModified "title" d = false ->
      isModified "date" d = false -> isModified "time" d = false ->
      preValidate lower_ext host_parse d = (d, Ok tt)).
Proof.
  split_and!.
  - intros d' u. apply preValidate_ok.
  - apply preValidate_runs.
  - apply preValidate_untouched.
Qed.

(** A stored Event whose title and time were edited: the slug is generated
    anew from the title, the time is normalized, the date is left alone. *)
Lemma preValidate_regenerates_witness :
  let d := {| title := js "Next.js Conf 2026"; slug := js "next-js-conf";
              description := js "d"; overview := js "o";
              image := js "i"; venue := js "v"; location := js "l";
              date := js "2025-01-31"; time := js " 9:30"; mode := js "m";
              audience := js "a"; agenda := [js "x"]; organizer := js "g";
              tags := [js "t"]; isNew := false;
              modifiedPaths := {[ "title"%string; "time"%string ]} |} in
  exists d',
    preValidate ascii_only no_other_format d = (d', Ok tt)
    /\ slug d' = js "next-js-conf-2026"
    /\ date d' = js "2025-01-31"
    /\ time d' = js "09:30".
Proof.
  intros d.
  destruct (proj1 (proj2 (preValidate_regenerates ascii_only no_other_format d)))
    as (d' & E & S & D & T & _).
  - intros _. vm_compute. discriminate.
  - vm_compute. discriminate.
  - intros _. exists (js "09:30"). vm_compute. reflexivity.
  - exists d'. split; [exact E|].
    vm_compute in S, D, T. injection T as T.
    split; [exact S|]. split; [exact D|]. symmetry. exact T.
Defined.

(** C10.  The hook assigns slug, date and time in that order and undoes
    nothing when a later step throws.  If the title calls for a new slug,
    one can be generated, and the modified date cannot be parsed, the hook
    fails with the date error and leaves the document with the new slug and
    with date and time as they were given.  If instead the date is fine and
    the modified time is rejected, the hook fails with the time error and
    the date is already the normalized one.  If no slug can be generated,
    the hook fails before it touches anything. *)
Theorem preValidate_no_rollback
  (lower_ext : jsstring -> N -> jsstring -> jsstring)
  (host_parse : jsstring -> option Z) (d : EventDocument) :
  (forall e,
     isNew d || isModified "title" d = true ->
     slugify lower_ext (title d) <> [] ->
     isModified "date" d = true ->
     normalizeDate host_parse (date d) = Throw e ->
     exists d', preValidate lower_ext host_parse d = (d', Throw e)
       /\ slug d' = slugify lower_ext (title d)
       /\ date d' = date d /\ time d' = time d)
  /\ (forall v e,
        isNew d = false -> isModified "title" d = false ->
        isModified "date" d = true ->
        normalizeDate host_parse (date d) = Ok v ->
        isModified "time" d = true -> normalizeTime (time d) = Throw e ->
        exists d', preValidate lower_ext host_parse d = (d', Throw e)
          /\ slug d' = slug d /\ date d' = v /\ time d' = time d)
  /\ (isNew d || isModified "title" d = true ->
      slugify lower_ext (title d) = [] ->
      preValidate lower_ext host_parse d = (d, Throw slug_error)).
Proof.
  split_and!.
  - intros e. apply preValidate_date_fails.
  - intros v e. apply preValidate_time_fails.
  - apply preValidate_slug_fails.
Qed.

Lemma preValidate_no_rollback_witness :
  let d := {| title := js "React Summit"; slug := js "old-slug";
              description := js "d"; overview := js "o";
              image := js "i"; venue := js "v"; location := js "l";
              date := js "not-a-date"; time := js "9:00"; mode := js "m";
              audience := js "a"; agenda := [js "x"]; organizer := js "g";
              tags := [js "t"]; isNew := false;
              modifiedPaths := {[ "title"%string; "date"%string ]} |} in
  exists d', preValidate ascii_only no_other_format d = (d', Throw date_error)
    /\ slug d' = js "react-summit"
    /\ date d' = js "not-a-date" /\ time d' = js "9:00".
Proof.
  intros d.
  apply (proj1 (preValidate_no_rollback ascii_only no_other_format d)
           date_error).
  - vm_compute. reflexivity.
  - vm_compute. discriminate.
  - vm_compute. reflexivity.
  - vm_compute. reflexivity.
Defined.
End EventClaims.

Section BookingClaims.
Import JS Hook BookingModel.

(** C5.  When [eventId] was set or changed, the pre-save hook sends one
    existence query for it to the Event collection.  If no Event has that
    identifier the hook fails with the referential-integrity error, and
    [save] fails without writing the booking (with that error, once the
    schema validation has passed); if one has, the hook succeeds.  When
    [eventId] was not modified the hook succeeds at once and sends no
    query. *)
Theorem preSave_integrity (b : BookingDocument) (st : Store) :
  (BookingModel.isModified "eventId" b = true -> eventId b ∉ events st ->
     exists st',
       preSave b st = (st', Throw integrity_error)
       /\ event_queries st' = event_queries st ++ [eventId b]
       /\ bookings st' = bookings st /\ events st' = events st
       /\ forall validate, exists st'' e,
            save validate b st = (st'', Throw e)
            /\ bookings st'' = bookings st
            /\ (forall u, validate b = Ok u -> e = integrity_error))
  /\ (BookingModel.isModified "eventId" b = true -> eventId b ∈ events st ->
       exists st',
         preSave b st = (st', Ok tt)
         /\ event_queries st' = event_queries st ++ [eventId b]
         /\ bookings st' = bookings st /\ events st' = events st)
  /\ (BookingModel.isModified "eventId" b = false ->
       preSave b st = (st, Ok tt)).
Proof.
  split_and!.
  - intros Hm Hn. eexists. split; [by apply preSave_missing|].
    split_and!; try done.
    intros validate. rewrite save_unfold, preSave_missing by done.
    destruct (validate b) as [u|e] eqn:Ev.
    + eexists _, _. split; [done|]. split; [done|]. done.
    + eexists _, _. split; [done|]. split; [done|]. done.
  - intros Hm Hn. eexists. split; [by apply preSave_present|]. done.
  - apply preSave_unmodified.
Qed.

Lemma preSave_integrity_witness :
  let b := {| eventId := 7%N; email := js "ada@example.org"; isNew := true;
              modifiedPaths := {[ "eventId"%string; "email"%string ]} |} in
  let st := {| events := {[ 1%N; 2%N ]}; bookings := [];
               event_queries := [] |} in
  exists st',
    preSave b st = (st', Throw integrity_error) /\ bookings st' = [].
Proof.
  intros b st.
  destruct (proj1 (preSave_integrity b st)) as (st' & H1 & _ & H2 & _).
  - vm_compute. reflexivity.
  - apply (bool_decide_eq_false_1 (eventId b ∈ events st)). vm_compute. reflexivity.
  - exists st'. split; [exact H1|exact H2].
Defined.
End BookingClaims.

(** * Further properties *)

(** ** The words of a slug *)

Section WordFacts.
Import JS EventModel Schema Shapes.
Local Open Scope N_scope.

Lemma az09_runs_cons c r :
  az09_runs (c :: r) =
  if is_az09 c then
    if starts_az09 r then
      match az09_runs r with
      | w :: ws => (c :: w) :: ws
      | [] => [[c]]
      end
    else [c] :: az09_runs r
  else az09_runs r.
Proof. destruct r as [|c' r']; simpl; by destruct (is_az09 c). Qed.

Lemma az09_runs_start s : starts_az09 s = true -> az09_runs s <> [].
Proof.
  destruct s as [|c r]; [done|]. intros Hc. rewrite az09_runs_cons.
  simpl in Hc. rewrite Hc. destruct (starts_az09 r); [|done].
  by destruct (az09_runs r).
Qed.

Lemma az09_runs_words s : Forall word (az09_runs s).
Proof.
  induction s as [|c r IH]; [constructor|]. rewrite az09_runs_cons.
  destruct (is_az09 c) eqn:Hc; [|done].
  assert (word [c]) as Hw.
  { split; [done|]. apply List.Forall_cons; [done|apply List.Forall_nil]. }
  destruct (starts_az09 r).
  - destruct (az09_runs r) as [|w ws]; [by apply List.Forall_cons|].
    inversion IH as [|? ? [Hne Hall] Hws]; subst.
    apply List.Forall_cons; [|done]. split; [done|].
    by apply List.Forall_cons.
  - by apply List.Forall_cons.
Qed.

Lemma az09_runs_nil s :
  az09_runs s = [] <-> Forall (fun c => is_az09 c = false) s.
Proof.
  induction s as [|c r IH]; [split; [constructor|done]|].
  rewrite az09_runs_cons. destruct (is_az09 c) eqn:Hc.
  - split.
    + destruct (starts_az09 r); [by destruct (az09_runs r)|done].
    + intros H. inversion H; congruence.
  - rewrite IH. split.
    + intros H. by apply List.Forall_cons.
    + intros H. by inversion H.
Qed.

Lemma join_hyphen_nil words :
  Forall word words -> join_hyphen words = [] -> words = [].
Proof.
  intros Hw. destruct Hw as [|w ws [Hne _] _]; [done|]. simpl.
  destruct ws; [done|]. by destruct w.
Qed.

(** Units outside [a-z0-9] at either end do not change the runs. *)
Lemma az09_runs_drop_while p s :
  (forall c, p c = true -> is_az09 c = false) ->
  az09_runs (drop_while p s) = az09_runs s.
Proof.
  intros Hp. induction s as [|c r IH]; [done|]. cbn [drop_while].
  destruct (p c) eqn:Hc; [|done]. rewrite IH, (az09_runs_cons c r).
  by rewrite (Hp _ Hc).
Qed.

Lemma starts_az09_app s l :
  Forall (fun c => is_az09 c = false) l ->
  starts_az09 (s ++ l) = starts_az09 s.
Proof.
  intros Hl. destruct s; [|done]. destruct Hl as [|x l Hx _]; [done|].
  exact Hx.
Qed.

Lemma az09_runs_app_sep s l :
  Forall (fun c => is_az09 c = false) l -> az09_runs (s ++ l) = az09_runs s.
Proof.
  intros Hl. induction s as [|c r IH].
  - by apply az09_runs_nil.
  - rewrite <- app_comm_cons, !az09_runs_cons, IH.
    by rewrite starts_az09_app.
Qed.

Lemma trimEnd_split s :
  exists l, s = trimEnd s ++ l /\ forallb is_whitespace l = true.
Proof.
  induction s as [|c r (l & E & Hl)]; [by exists []|]. cbn [trimEnd].
  destruct (trimEnd r) as [|c' r'] eqn:Et.
  - destruct (is_whitespace c) eqn:Hc.
    + exists (c :: r). split; [done|]. simpl in E. subst l. simpl.
      by rewrite Hc, Hl.
    + exists l. split; [|done]. simpl in *. by rewrite <- E.
  - exists l. split; [|done]. rewrite E at 1. done.
Qed.

Lemma ws_not_az09 c : is_whitespace c = true -> is_az09 c = false.
Proof.
  intros H. destruct (is_az09 c) eqn:E; [|done].
  apply az09_not_ws in E. congruence.
Qed.

Lemma az09_runs_trim s : az09_runs (trim s) = az09_runs s.
Proof.
  unfold trim, trimStart.
  rewrite <- (az09_runs_drop_while is_whitespace s ws_not_az09).
  destruct (trimEnd_split (drop_while is_whitespace s)) as (l & E & Hl).
  rewrite E at 2. rewrite az09_runs_app_sep; [done|].
  rewrite forallb_forall in Hl. apply List.Forall_forall.
  intros c Hc. apply ws_not_az09. auto.
Qed.

(** The two replacements, read as one scan. *)
Lemma drop_while_no_start s :
  starts_with_hyphen s = false -> drop_while is_hyphen s = s.
Proof. destruct s as [|c r]; simpl; [done|]. by intros ->. Qed.

Lemma strip_edge_replace_runs s :
  strip_edge_hyphens (replace_runs false s)
  = strip_trailing_hyphens (replace_runs true s).
Proof.
  unfold strip_edge_hyphens. destruct s as [|c r]; [done|].
  cbn [replace_runs]. destruct (is_az09 c) eqn:Hc; cbn [drop_while].
  - by rewrite (az09_not_hyphen _ Hc).
  - change (is_hyphen hyphen) with true. cbv iota.
    by rewrite drop_while_no_start by apply replace_runs_start.
Qed.

Lemma replace_runs_true_nil s :
  az09_runs s = [] -> replace_runs true s = [].
Proof.
  rewrite az09_runs_nil. induction 1 as [|c r Hc _ IH]; [done|].
  simpl. by rewrite Hc.
Qed.

Lemma replace_runs_true_some s :
  az09_runs s <> [] -> forallb is_hyphen (replace_runs true s) = false.
Proof.
  induction s as [|c r IH]; [done|]. rewrite az09_runs_cons. simpl.
  destruct (is_az09 c) eqn:Hc.
  - intros _. simpl. by rewrite (az09_not_hyphen _ Hc).
  - done.
Qed.

Lemma strip_replace_runs s :
  strip_trailing_hyphens (replace_runs true s) = join_hyphen (az09_runs s)
  /\ strip_trailing_hyphens (replace_runs false s)
     = if starts_az09 s then join_hyphen (az09_runs s)
       else match az09_runs s with
            | [] => []
            | _ => hyphen :: join_hyphen (az09_runs s)
            end.
Proof.
  induction s as [|c r [IHt IHf]]; [done|].
  rewrite az09_runs_cons. cbn [replace_runs starts_az09].
  destruct (is_az09 c) eqn:Hc.
  - assert (strip_trailing_hyphens (c :: replace_runs false r)
            = c :: strip_trailing_hyphens (replace_runs false r)) as ->.
    { simpl. by rewrite (az09_not_hyphen _ Hc). }
    rewrite IHf.
    assert (c :: (if starts_az09 r then join_hyphen (az09_runs r)
                  else match az09_runs r with
                       | [] => []
                       | _ :: _ => hyphen :: join_hyphen (az09_runs r)
                       end)
            = join_hyphen (if starts_az09 r
                           then match az09_runs r with
                                | [] => [[c]]
                                | w :: ws => (c :: w) :: ws
                                end
                           else [c] :: az09_runs r)) as E.
    { destruct (starts_az09 r) eqn:Hs.
      - pose proof (az09_runs_start _ Hs) as Hne.
        destruct (az09_runs r) as [|w ws]; [done|].
        by rewrite join_hyphen_cons.
      - by destruct (az09_runs r). }
    split; exact E.
  - split; [done|].
    destruct (az09_runs r) as [|w ws] eqn:Er.
    + simpl. by rewrite (replace_runs_true_nil r Er).
    + cbn [strip_trailing_hyphens]. change (is_hyphen hyphen) with true.
      rewrite (replace_runs_true_some r) by congruence.
      simpl andb. cbv iota. by rewrite IHt.
Qed.

Lemma slugify_runs ext title :
  slugify ext title = join_hyphen (az09_runs (toLowerCase ext title)).
Proof.
  unfold slugify. rewrite strip_edge_replace_runs.
  rewrite (proj1 (strip_replace_runs _)). by rewrite az09_runs_trim.
Qed.
End WordFacts.

Section SlugExtra.
Import JS EventModel Schema Shapes.
Local Open Scope N_scope.

Lemma toLowerCase_from_ascii ext before s :
  Forall (fun c => c < 128) s ->
  toLowerCase_from ext before s = map ascii_lower s.
Proof.
  intros H. revert before. induction H as [|c r Hc _ IH]; intros before; [done|].
  simpl. apply N.ltb_lt in Hc. by rewrite Hc, IH.
Qed.

Lemma slug_unit_lower c :
  slug_unit c = true -> c < 128 /\ ascii_lower c = c.
Proof.
  unfold slug_unit, is_az09, is_lower, is_digit, is_hyphen, hyphen,
    ascii_lower, is_upper.
  intros H. bool_to_prop.
  destruct (andb_false_iff (65 <=? c) (c <=? 90)) as [_ Hn].
  rewrite Hn; [lia|]. rewrite N.leb_gt, N.leb_gt. lia.
Qed.

Lemma toLowerCase_slug ext s :
  forallb slug_unit s = true -> toLowerCase ext s = s.
Proof.
  intros H. rewrite forallb_forall in H. unfold toLowerCase.
  rewrite toLowerCase_from_ascii.
  - rewrite <- (map_id s) at 2. apply map_ext_in. intros c Hc.
    by apply slug_unit_lower, H.
  - apply List.Forall_forall. intros c Hc. by apply slug_unit_lower, H.
Qed.

Lemma az09_runs_word_sep w rest :
  word w -> starts_az09 rest = false ->
  az09_runs (w ++ rest) = w :: az09_runs rest.
Proof.
  intros [Hne Hw] Hr. induction Hw as [|c w Hc Hw IH]; [done|].
  rewrite <- app_comm_cons, az09_runs_cons, Hc.
  destruct w as [|c' w'].
  - simpl app. by rewrite Hr.
  - rewrite IH by done. simpl. inversion Hw as [|? ? Hc' _]; subst.
    by rewrite Hc'.
Qed.

Lemma az09_runs_join words :
  Forall word words -> az09_runs (join_hyphen words) = words.
Proof.
  induction 1 as [|w ws Hw Hws IH]; [done|]. cbn [join_hyphen].
  destruct ws as [|w' ws'].
  - rewrite <- (app_nil_r w) at 1. by rewrite az09_runs_word_sep.
  - rewrite az09_runs_word_sep by done.
    change (az09_runs (hyphen :: ?s)) with (az09_runs s). by rewrite IH.
Qed.

Lemma join_hyphen_inj ws1 ws2 :
  Forall word ws1 -> Forall word ws2 ->
  join_hyphen ws1 = join_hyphen ws2 -> ws1 = ws2.
Proof.
  intros H1 H2 E. rewrite <- (az09_runs_join ws1), <- (az09_runs_join ws2) by done.
  by rewrite E.
Qed.

Lemma slugify_fixed ext s :
  forallb slug_unit s = true -> starts_with_hyphen s = false ->
  ends_with_hyphen s = false -> no_double_hyphen s = true ->
  slugify ext s = s.
Proof.
  intros Hu Hs He Hd. rewrite slugify_runs, toLowerCase_slug by done.
  destruct s as [|c r]; [done|].
  destruct (hyphen_separated (c :: r) ltac:(done) Hu Hd Hs He)
    as (words & _ & Hw & E).
  rewrite E at 1. rewrite az09_runs_join by done. by rewrite E.
Qed.
End SlugExtra.

Section TimeExtra.
Import JS EventModel Schema Shapes.
Local Open Scope N_scope.

Lemma two_digits_inj a b :
  a < 100 -> b < 100 -> two_digits a = two_digits b -> a = b.
Proof. unfold two_digits. intros Ha Hb [= H1 H2]. lia. Qed.

Lemma time_text_inj h1 m1 h2 m2 :
  h1 <= 23 -> m1 <= 59 -> h2 <= 23 -> m2 <= 59 ->
  two_digits h1 ++ colon :: two_digits m1
  = two_digits h2 ++ colon :: two_digits m2 ->
  h1 = h2 /\ m1 = m2.
Proof.
  unfold two_digits. simpl. intros ? ? ? ? [= A B C D]. lia.
Qed.

Lemma time_text_lt h1 m1 h2 m2 :
  h1 <= 23 -> m1 <= 59 -> h2 <= 23 -> m2 <= 59 ->
  string_lt (two_digits h1 ++ colon :: two_digits m1)
            (two_digits h2 ++ colon :: two_digits m2) = true
  <-> 60 * h1 + m1 < 60 * h2 + m2.
Proof.
  intros ? ? ? ?. unfold two_digits, colon. cbn [app string_lt].
  rewrite N.ltb_irrefl, N.eqb_refl. cbn [orb andb].
  rewrite andb_false_r, orb_false_r.
  repeat (rewrite orb_true_iff || rewrite andb_true_iff).
  rewrite !N.ltb_lt, !N.eqb_eq.
  pose proof (N.div_mod h1 10 ltac:(lia)). pose proof (N.mod_lt h1 10 ltac:(lia)).
  pose proof (N.div_mod h2 10 ltac:(lia)). pose proof (N.mod_lt h2 10 ltac:(lia)).
  pose proof (N.div_mod m1 10 ltac:(lia)). pose proof (N.mod_lt m1 10 ltac:(lia)).
  pose proof (N.div_mod m2 10 ltac:(lia)). pose proof (N.mod_lt m2 10 ltac:(lia)).
  generalize dependent (h1 / 10). generalize dependent (h1 mod 10).
  generalize dependent (h2 / 10). generalize dependent (h2 mod 10).
  generalize dependent (m1 / 10). generalize dependent (m1 mod 10).
  generalize dependent (m2 / 10). generalize dependent (m2 mod 10).
  intros. subst h1 h2 m1 m2. lia.
Qed.
End TimeExtra.

Section DateExtra.
Import JS JSDate EventModel Schema Shapes.
Local Open Scope Z_scope.

Lemma date_string_text t :
  date_string t
  = date_text (YearFromTime t) (MonthFromTime t + 1) (DateFromTime t).
Proof. reflexivity. Qed.

Lemma DaysInMonth_le_31 y m : 0 <= m <= 11 -> 28 <= DaysInMonth y m <= 31.
Proof.
  intros Hm. unfold DaysInMonth.
  destruct (leap_days_01 y) as [-> | ->];
    assert (m = 0 \/ m = 1 \/ m = 2 \/ m = 3 \/ m = 4 \/ m = 5 \/ m = 6
            \/ m = 7 \/ m = 8 \/ m = 9 \/ m = 10 \/ m = 11) as Hc by lia;
    repeat (destruct Hc as [-> | Hc]; [simpl; lia|]); subst; simpl; lia.
Qed.

Lemma parse_date_only_text y m d :
  -999999 <= y <= 999999 -> 1 <= m <= 12 ->
  1 <= d <= DaysInMonth y (m - 1) ->
  parse_date_only (date_text y m d)
  = Some (MakeDate (MakeDay y (m - 1) d) 0).
Proof.
  intros Hy Hm Hd. unfold parse_date_only, date_text.
  pose proof (DaysInMonth_le_31 y (m - 1) ltac:(lia)).
  rewrite parse_year_year_string by lia.
  rewrite parse_month_day_string by lia.
  destruct (Z.leb_spec 1 m); [|lia]. destruct (Z.leb_spec m 12); [|lia].
  destruct (Z.leb_spec 1 d); [|lia].
  destruct (Z.leb_spec d (DaysInMonth y (m - 1))); [|lia]. done.
Qed.

Lemma month_start_within y m d :
  0 <= m <= 11 -> 1 <= d <= DaysInMonth y m ->
  0 <= month_start (leap_days y) m + d - 1 < DaysInYear y
  /\ month_of_day (leap_days y) (month_start (leap_days y) m + d - 1) = m.
Proof.
  intros Hm. unfold DaysInMonth, DaysInYear, month_of_day.
  destruct (leap_days_01 y) as [-> | ->];
    assert (m = 0 \/ m = 1 \/ m = 2 \/ m = 3 \/ m = 4 \/ m = 5 \/ m = 6
            \/ m = 7 \/ m = 8 \/ m = 9 \/ m = 10 \/ m = 11) as Hc by lia;
    repeat (destruct Hc as [-> | Hc];
            [simpl; intros Hd;
             repeat match goal with
             | |- context [?a <? ?b] => destruct (Z.ltb_spec a b); try lia
             end; lia|]);
    subst; simpl; intros Hd;
    repeat match goal with
    | |- context [?a <? ?b] => destruct (Z.ltb_spec a b); try lia
    end; lia.
Qed.

Lemma fields_of_MakeDay y m d :
  0 <= m <= 11 -> 1 <= d <= DaysInMonth y m ->
  let t := MakeDate (MakeDay y m d) 0 in
  YearFromTime t = y /\ MonthFromTime t = m /\ DateFromTime t = d.
Proof.
  intros Hm Hd t.
  destruct (month_start_within y m d Hm Hd) as [Hw Hmo].
  assert (Day t = MakeDay y m d) as HD by apply Day_of_midnight.
  assert (YearFromTime t = y) as HY.
  { unfold YearFromTime. rewrite HD. apply YearFromDay_unique.
    rewrite DayFromYear_succ. unfold MakeDay. lia. }
  assert (DayWithinYear t = month_start (leap_days y) m + d - 1) as HW.
  { unfold DayWithinYear. rewrite HY, HD. unfold MakeDay. lia. }
  assert (MonthFromTime t = m) as HM.
  { unfold MonthFromTime. by rewrite HY, HW. }
  split; [done|]. split; [done|].
  unfold DateFromTime. rewrite HY, HM, HW. lia.
Qed.

Lemma DayFromYear_mono a b : a <= b -> DayFromYear a <= DayFromYear b.
Proof. intros Hab. unfold DayFromYear. lia. Qed.

Lemma MakeDay_bounds y m d :
  0 <= m <= 11 -> 1 <= d <= DaysInMonth y m ->
  DayFromYear y <= MakeDay y m d < DayFromYear (y + 1).
Proof.
  intros Hm Hd. destruct (month_start_within y m d Hm Hd) as [Hw _].
  rewrite DayFromYear_succ. unfold MakeDay. lia.
Qed.
End DateExtra.

Section HookExtra.
Import JS JSDate Hook EventModel Schema Shapes Samples.
Local Open Scope N_scope.
Variable lower_ext : jsstring -> N -> jsstring -> jsstring.
Variable host_parse : jsstring -> option Z.

Local Abbreviation slugify := (slugify lower_ext).
Local Abbreviation normalizeDate := (normalizeDate host_parse).
Local Abbreviation preValidate := (preValidate lower_ext host_parse).
Local Abbreviation slug_step := (slug_step lower_ext).
Local Abbreviation date_step := (date_step host_parse).

(** X10.  Running the hook again changes nothing: on a document that holds
    the title, slug, date and time a successful run left, and whose change
    tracking calls for no step that run did not take (the slug step if it is
    new or its title is marked modified, the date step if the date is
    marked, the time step if the time is), the hook succeeds and leaves
    slug, date, time and every other field as they are.  The change
    tracking of the second document is otherwise arbitrary, and nothing is
    said about the tracking either run leaves. *)
Theorem preValidate_idempotent d d1 u d2 :
  preValidate d = (d1, Ok u) ->
  title d2 = title d1 -> slug d2 = slug d1 ->
  date d2 = date d1 -> time d2 = time d1 ->
  (isNew d2 || isModified "title" d2 = true ->
   isNew d || isModified "title" d = true) ->
  (isModified "date" d2 = true -> isModified "date" d = true) ->
  (isModified "time" d2 = true -> isModified "time" d = true) ->
  exists d3,
    preValidate d2 = (d3, Ok tt)
    /\ slug d3 = slug d2 /\ date d3 = date d2 /\ time d3 = time d2
    /\ same_other_fields d2 d3.
Proof.
  intros Hrun Et Es Ed Em Ir Id It.
  pose proof (preValidate_ok _ _ _ _ _ Hrun) as (S & D & T & O).
  assert (isNew d || isModified "title" d = true -> slugify (title d) <> [])
    as Hs.
  { apply (preValidate_succeeds_iff lower_ext host_parse d).
    exists d1. by destruct u. }
  destruct O as (Ht & _).
  assert (isModified "date" d2 = true -> normalizeDate (date d2) = Ok (date d2))
    as Hd2.
  { intros H. rewrite (Id H) in D. rewrite Ed.
    by eapply normalizeDate_idempotent. }
  assert (isModified "time" d2 = true -> normalizeTime (time d2) = Ok (time d2))
    as Ht2.
  { intros H. rewrite (It H) in T. rewrite Em.
    by eapply normalizeTime_idempotent. }
  destruct (preValidate_runs lower_ext host_parse d2)
    as (d3 & E & S3 & D3 & T3 & O3).
  - intros H. rewrite Et, Ht. auto.
  - intros H. eauto.
  - intros H. eauto.
  - exists d3. split; [done|]. split_and!; [| | |done].
    + destruct (isNew d2 || isModified "title" d2) eqn:Hr; [|done].
      rewrite S3, Es, S, (Ir eq_refl), Et, Ht. done.
    + destruct (isModified "date" d2) eqn:Hm; [|done].
      rewrite (Hd2 eq_refl) in D3. by injection D3.
    + destruct (isModified "time" d2) eqn:Hm; [|done].
      rewrite (Ht2 eq_refl) in T3. by injection T3.
Qed.
End HookExtra.

Section ValidatorFacts.
Import JS Schema.
Local Open Scope N_scope.

Lemma trim_nil_iff s : trim s = [] <-> forallb is_whitespace s = true.
Proof.
  split.
  - intros E. destruct (forallb is_whitespace s) eqn:H; [done|].
    assert (exists c, In c s /\ is_whitespace c = false) as (c & Hin & Hc).
    { clear E. induction s as [|c r IH]; [done|]. simpl in H.
      destruct (is_whitespace c) eqn:Hc.
      - destruct (IH H) as (c' & ? & ?). exists c'. split; [by right|done].
      - exists c. split; [by left|done]. }
    pose proof (trim_keeps s c Hin Hc) as Hk. by rewrite E in Hk.
  - intros H. unfold trim, trimStart. by rewrite drop_while_all.
Qed.

Lemma required_string_validator_iff value :
  required_string_validator value = true
  <-> exists c, In c value /\ is_whitespace c = false.
Proof.
  unfold required_string_validator. split.
  - intros H. destruct (trim value) as [|c r] eqn:E; [done|].
    assert (In c (trim value)) as Hin by (rewrite E; by left).
    assert (forallb is_whitespace value = false) as Hf.
    { destruct (forallb is_whitespace value) eqn:Hf; [|done].
      apply trim_nil_iff in Hf. congruence. }
    clear -Hf. induction value as [|c r IH]; [done|]. simpl in Hf.
    destruct (is_whitespace c) eqn:Hc.
    + destruct (IH Hf) as (c' & ? & ?). exists c'. split; [by right|done].
    + exists c. split; [by left|done].
  - intros (c & Hin & Hc). pose proof (trim_keeps _ _ Hin Hc) as Hk.
    by destruct (trim value).
Qed.

Lemma required_string_validator_clean value :
  value <> [] -> Forall (fun c => is_whitespace c = false) value ->
  required_string_validator value = true.
Proof.
  intros Hne Hall. apply required_string_validator_iff.
  destruct Hall as [|c r Hc _]; [done|]. exists c. split; [by left|done].
Qed.
End ValidatorFacts.

Section HookOutcome.
Import JS JSDate Hook EventModel Schema Shapes Samples.
Local Open Scope N_scope.
Variable lower_ext : jsstring -> N -> jsstring -> jsstring.
Variable host_parse : jsstring -> option Z.

Local Abbreviation slugify := (slugify lower_ext).
Local Abbreviation normalizeDate := (normalizeDate host_parse).
Local Abbreviation preValidate := (preValidate lower_ext host_parse).
Local Abbreviation slug_step := (slug_step lower_ext).
Local Abbreviation date_step := (date_step host_parse).

Lemma normalizeTime_errors s e :
  normalizeTime s = Throw e -> e = format_error \/ e = range_error.
Proof.
  rewrite normalizeTime_unfold.
  destruct (match_time (trim s)) as [[g1 g2]|]; [|intros [= <-]; by left].
  destruct (_ || _); [intros [= <-]; by right|done].
Qed.

Lemma slug_step_runs d :
  (isNew d || isModified "title" d = true -> slugify (title d) <> []) ->
  exists da, slug_step d = (da, Ok tt).
Proof.
  intros Hs. unfold EventModel.slug_step.
  destruct (isNew d || isModified "title" d); [|eauto].
  specialize (Hs eq_refl). destruct (slugify (title d)); [done|eauto].
Qed.

Lemma slug_step_nonempty d da u :
  slug_step d = (da, Ok u) ->
  isNew d || isModified "title" d = true -> slugify (title d) <> [].
Proof.
  unfold EventModel.slug_step. intros E Hr Hs. by rewrite Hr, Hs in E.
Qed.

(** The step at which the hook fails, from the error it fails with. *)
Lemma preValidate_throw_cases d d' e :
  preValidate d = (d', Throw e) ->
  (e = slug_error
   /\ isNew d || isModified "title" d = true /\ slugify (title d) = [])
  \/ (e = date_error
      /\ (isNew d || isModified "title" d = true -> slugify (title d) <> [])
      /\ isModified "date" d = true /\ normalizeDate (date d) = Throw e)
  \/ ((e = format_error \/ e = range_error)
      /\ (isNew d || isModified "title" d = true -> slugify (title d) <> [])
      /\ (isModified "date" d = true ->
          exists v, normalizeDate (date d) = Ok v)
      /\ isModified "time" d = true /\ normalizeTime (time d) = Throw e).
Proof.
  rewrite preValidate_steps.
  destruct (slug_step d) as [da [ua|ea]] eqn:E1.
  - pose proof (slug_step_nonempty _ _ _ E1) as Hs.
    apply slug_step_ok in E1 as (_ & D1 & T1 & MD1 & MT1 & _).
    destruct (date_step da) as [db [ub|eb]] eqn:E2.
    + intros (_ & Hm & He)%time_step_throw. right. right.
      apply date_step_ok in E2 as (D2 & _ & T2 & MT2 & _).
      rewrite MT2, MT1 in Hm. rewrite T2, T1 in He. rewrite MD1, D1 in D2.
      split; [by eapply normalizeTime_errors|]. split_and!; try done.
      intros Hd. rewrite Hd in D2. eauto.
    + intros [= _ ->]. apply date_step_throw in E2 as (_ & Hm & He).
      rewrite MD1 in Hm. rewrite D1 in He. right. left.
      split; [by apply normalizeDate_fails in He as [_ ->]|done].
  - intros [= _ ->]. left. unfold EventModel.slug_step in E1.
    destruct (isNew d || isModified "title" d); [|done].
    destruct (slugify (title d)); [|done]. by injection E1 as _ <-.
Qed.

Lemma preValidate_date_throws d e :
  (isNew d || isModified "title" d = true -> slugify (title d) <> []) ->
  isModified "date" d = true -> normalizeDate (date d) = Throw e ->
  exists d', preValidate d = (d', Throw e).
Proof.
  intros Hs Hm He. rewrite preValidate_steps.
  destruct (slug_step_runs d Hs) as (da & E1). rewrite E1.
  apply slug_step_ok in E1 as (_ & D1 & _ & MD1 & _ & _).
  unfold EventModel.date_step. rewrite MD1, D1, Hm, He. eauto.
Qed.

Lemma preValidate_time_throws d e :
  (isNew d || isModified "title" d = true -> slugify (title d) <> []) ->
  (isModified "date" d = true -> exists v, normalizeDate (date d) = Ok v) ->
  isModified "time" d = true -> normalizeTime (time d) = Throw e ->
  exists d', preValidate d = (d', Throw e).
Proof.
  intros Hs Hd Hm He. rewrite preValidate_steps.
  destruct (slug_step_runs d Hs) as (da & E1). rewrite E1.
  apply slug_step_ok in E1 as (_ & D1 & T1 & MD1 & MT1 & _).
  assert (exists db, date_step da = (db, Ok tt)) as (db & E2).
  { unfold EventModel.date_step. rewrite MD1, D1.
    destruct (isModified "date" d); [|eauto].
    destruct (Hd eq_refl) as (v & ->). eauto. }
  rewrite E2. apply date_step_ok in E2 as (_ & _ & T2 & MT2 & _).
  unfold time_step. rewrite MT2, MT1, T2, T1, Hm, He. eauto.
Qed.

Lemma slugify_no_ws title :
  Forall (fun c => is_whitespace c = false) (slugify title).
Proof.
  pose proof (slugify_units lower_ext title) as H.
  rewrite forallb_forall in H. apply List.Forall_forall. intros c Hc.
  specialize (H c Hc). unfold slug_unit in H. apply orb_true_iff in H as [H|H].
  - by apply az09_not_ws.
  - by apply hyphen_not_ws.
Qed.

Lemma date_string_no_ws t :
  Forall (fun c => is_whitespace c = false) (date_string t).
Proof.
  eapply List.Forall_impl; [|apply date_string_units].
  intros c [H|[->| ->]]; [by apply digit_not_ws|done|done].
Qed.

Lemma date_string_not_nil t : date_string t <> [].
Proof.
  unfold date_string. intros E. apply (f_equal length) in E.
  rewrite !length_app, !digits_length in E. simpl in E. lia.
Qed.

(** X12.  Whatever a successful run of the hook writes passes the schema's
    required-string validator: the regenerated slug, the normalized date
    and the normalized time are never empty or blank. *)
Theorem preValidate_writes_required d d' u :
  preValidate d = (d', Ok u) ->
  (isNew d || isModified "title" d = true ->
     required_string_validator (slug d') = true)
  /\ (isModified "date" d = true ->
      required_string_validator (date d') = true)
  /\ (isModified "time" d = true ->
      required_string_validator (time d') = true).
Proof.
  intros Hrun.
  pose proof (preValidate_ok _ _ _ _ _ Hrun) as (S & D & T & _).
  split_and!.
  - intros Hr. rewrite Hr in S. rewrite S.
    apply required_string_validator_clean; [|apply slugify_no_ws].
    intros Hs. rewrite preValidate_steps in Hrun.
    unfold EventModel.slug_step in Hrun. by rewrite Hr, Hs in Hrun.
  - intros Hm. rewrite Hm in D. apply normalizeDate_ok in D as (t & _ & ->).
    apply required_string_validator_clean;
      [apply date_string_not_nil|apply date_string_no_ws].
  - intros Hm. rewrite Hm in T.
    apply normalizeTime_ok in T as (h & m & _ & Hh & Hmm & ->).
    apply required_string_validator_clean; [done|].
    apply Forall_app. split; [|apply List.Forall_cons; [done|]].
    + eapply List.Forall_impl; [|apply two_digits_digit; lia].
      apply digit_not_ws.
    + eapply List.Forall_impl; [|apply two_digits_digit; lia].
      apply digit_not_ws.
Qed.
End HookOutcome.

Section EmailFacts.
Import JS Schema.
Local Open Scope N_scope.

Lemma plus_class_spec p k s :
  plus_class p k s = true
  <-> exists a r, a <> [] /\ forallb p a = true /\ s = a ++ r /\ k r = true.
Proof.
  induction s as [|c t IH].
  - split; [done|]. intros (a & r & Ha & _ & E & _). by destruct a.
  - simpl. rewrite andb_true_iff, orb_true_iff, IH. split.
    + intros [Hc [(a & r & Ha & Hp & -> & Hk)|Hk]].
      * exists (c :: a), r. simpl. by rewrite Hc, Hp.
      * exists [c], t. simpl. by rewrite Hc.
    + intros (a & r & Ha & Hp & E & Hk).
      destruct a as [|c' a']; [done|]. simpl in *. injection E as <- ->.
      apply andb_true_iff in Hp as [Hc Hp]. split; [done|].
      destruct a' as [|c'' a'']; [by right|]. left. by exists (c'' :: a''), r.
Qed.

Lemma unit_lit_spec x k s :
  unit_lit x k s = true <-> exists r, s = x :: r /\ k r = true.
Proof.
  unfold unit_lit. destruct s as [|c r].
  - split; [done|]. by intros (? & ? & _).
  - rewrite andb_true_iff, N.eqb_eq. split.
    + intros [-> Hk]. eauto.
    + intros (r' & [= -> ->] & Hk). done.
Qed.

Lemma at_end_spec s : at_end s = true <-> s = [].
Proof. by destruct s. Qed.

Lemma EMAIL_REGEX_test_spec value :
  EMAIL_REGEX_test value = true
  <-> exists l d1 d2,
        value = l ++ [64] ++ d1 ++ [46] ++ d2
        /\ l <> [] /\ d1 <> [] /\ d2 <> []
        /\ forallb not_space_or_at l = true
        /\ forallb not_space_or_at d1 = true
        /\ forallb not_space_or_at d2 = true.
Proof.
  unfold EMAIL_REGEX_test. rewrite plus_class_spec. split.
  - intros (l & r1 & Hl & Pl & -> & H1).
    apply unit_lit_spec in H1 as (r2 & -> & H2).
    apply plus_class_spec in H2 as (d1 & r3 & Hd1 & P1 & -> & H3).
    apply unit_lit_spec in H3 as (r4 & -> & H4).
    apply plus_class_spec in H4 as (d2 & r5 & Hd2 & P2 & -> & H5).
    apply at_end_spec in H5 as ->. rewrite app_nil_r.
    exists l, d1, d2. done.
  - intros (l & d1 & d2 & -> & Hl & Hd1 & Hd2 & Pl & P1 & P2).
    exists l, ([64] ++ d1 ++ [46] ++ d2). split_and!; try done.
    apply unit_lit_spec. eexists. split; [done|].
    apply plus_class_spec. exists d1, ([46] ++ d2). split_and!; try done.
    apply unit_lit_spec. eexists. split; [done|].
    apply plus_class_spec. exists d2, []. split_and!; try done.
    by rewrite app_nil_r.
Qed.

Lemma count_unit_app x a b :
  count_unit x (a ++ b) = (count_unit x a + count_unit x b)%nat.
Proof. induction a as [|c a IH]; simpl; [done|]. rewrite IH. lia. Qed.

Lemma count_unit_class s :
  forallb not_space_or_at s = true -> count_unit 64 s = 0%nat.
Proof.
  induction s as [|c r IH]; [done|]. simpl.
  intros [Hc Hr]%andb_true_iff. unfold not_space_or_at in Hc.
  apply negb_true_iff, orb_false_iff in Hc as [_ Hc]. rewrite Hc. auto.
Qed.

Lemma class_not_ws s :
  forallb not_space_or_at s = true ->
  Forall (fun c => is_whitespace c = false) s.
Proof.
  rewrite forallb_forall. intros H. apply List.Forall_forall. intros c Hc.
  specialize (H c Hc). unfold not_space_or_at in H.
  by apply negb_true_iff, orb_false_iff in H as [H _].
Qed.
End EmailFacts.

Section CacheExtra.
Import JS Mongodb Trace.

(** A call finds an attempt or starts one. *)
Lemma call_connects c w :
  cache_inv w -> length (connects (call c w)) = 1%nat.
Proof.
  intros Hw. unfold call.
  pose proof (inv_promise _ Hw) as Hp. pose proof (inv_single _ Hw) as Hs.
  destruct (conn (cached w)) as [m|] eqn:Ec.
  - simpl. by rewrite (inv_conn _ Hw _ Ec).
  - destruct (connects w) as [|x [|y l]] eqn:El; rewrite Hp; simpl in *;
      [done|done|lia].
Qed.

(** Nothing but a call starts an attempt, and no step drops one. *)
Lemma step_connects w ev w' :
  cache_inv w -> step w ev = Some w' ->
  match ev with
  | Call _ => length (connects w') = 1%nat
  | _ => length (connects w') = length (connects w)
  end.
Proof.
  intros Hw. destruct ev as [c|p o|c|]; simpl.
  - intros [= <-]. by apply call_connects.
  - unfold settle. destruct (connects w !! p) as [[|o']|]; try done.
    intros [= <-]. simpl. by rewrite length_insert.
  - unfold resume.
    destruct (take_awaiting c (awaiting w)) as [[p rest]|]; [|done].
    destruct (connects w !! p) as [[|[m|e]]|]; try done; by intros [= <-].
  - by intros [= <-].
Qed.

Lemma connects_run tr : forall w w',
  cache_inv w -> run w tr = Some w' ->
  length (connects w') =
    (if Nat.eqb (calls_in tr) 0 then length (connects w) else 1)%nat.
Proof.
  induction tr as [|ev tr IH]; intros w w' Hw.
  - by intros [= <-].
  - simpl run. destruct (step w ev) as [w1|] eqn:E; [|done]. intros Hrun.
    pose proof (cache_inv_step _ _ _ Hw E) as Hw1.
    pose proof (step_connects _ _ _ Hw E) as Hc.
    rewrite (IH _ _ Hw1 Hrun).
    destruct ev; simpl; rewrite Hc; by destruct (Nat.eqb (calls_in tr) 0).
Qed.

Lemma delivered_cached_step w ev w' :
  cache_inv w -> delivered_cached w -> step w ev = Some w' ->
  delivered_cached w'.
Proof.
  unfold delivered_cached. intros Hw Hd. destruct ev as [c|p o|c|]; simpl.
  - intros [= <-]. unfold call.
    destruct (conn (cached w)) as [m|] eqn:Ec.
    + simpl. intros c' m' [Hin|[[= <- <-]|[]]]%in_app_or;
        [specialize (Hd _ _ Hin); congruence|done].
    + destruct (promise (cached w)); simpl; intros c' m' Hin;
        specialize (Hd _ _ Hin); congruence.
  - unfold settle. destruct (connects w !! p) as [[|]|]; try done.
    by intros [= <-].
  - unfold resume.
    destruct (take_awaiting c (awaiting w)) as [[p rest]|] eqn:Et; [|done].
    apply take_awaiting_In in Et as [Hin _].
    destruct (inv_awaiting _ Hw _ _ Hin) as [-> _].
    pose proof (inv_completed _ Hw) as Hc.
    destruct (connects w) as [|[|[m|e]] l] eqn:Ew; simpl;
      try (by intros [=]); intros [= <-]; simpl.
    + intros c' m' [Hin'|[[= <- <-]|[]]]%in_app_or; [|done].
      apply Hc in Hin'. by injection Hin' as ->.
    + intros c' m' [Hin'|[[=]|[]]]%in_app_or. eauto.
  - by intros [= <-].
Qed.

Lemma delivered_cached_run tr : forall w w',
  cache_inv w -> delivered_cached w -> run w tr = Some w' ->
  delivered_cached w'.
Proof.
  induction tr as [|ev tr IH]; intros w w' Hw Hd; simpl.
  - by intros [= <-].
  - destruct (step w ev) as [w1|] eqn:E; [|done].
    apply IH; [by eapply cache_inv_step|by eapply delivered_cached_step].
Qed.

Lemma delivered_cached_start : delivered_cached start.
Proof. by intros c m []. Qed.
End CacheExtra.


Section EventExtras.
Import JS JSDate Hook EventModel Schema Shapes Samples.
Local Open Scope N_scope.

(** X1.  [slugify] returns the maximal runs of [a-z0-9] of the lowercased
    title, in order, joined by single hyphens; what lies between, before and
    after the runs has no other effect. *)
Theorem slugify_joins_runs
  (lower_ext : jsstring -> N -> jsstring -> jsstring) (title : jsstring) :
  slugify lower_ext title
  = join_hyphen (az09_runs (toLowerCase lower_ext title))
  /\ Forall word (az09_runs (toLowerCase lower_ext title)).
Proof. split; [apply slugify_runs|apply az09_runs_words]. Qed.

(** X2.  A slug is its own slug: [slugify] applied to a result of [slugify]
    returns it unchanged, on any host. *)
Theorem slugify_idempotent
  (lower_ext lower_ext' : jsstring -> N -> jsstring -> jsstring)
  (title : jsstring) :
  slugify lower_ext' (slugify lower_ext title) = slugify lower_ext title.
Proof.
  apply slugify_fixed.
  - apply slugify_units.
  - apply slugify_start.
  - apply slugify_end.
  - apply slugify_no_double.
Qed.

Lemma is_az09_ascii_lower c : is_az09 (ascii_lower c) = is_alnum c.
Proof.
  unfold is_alnum, ascii_lower. destruct (is_upper c) eqn:Hu; [|done].
  unfold is_az09, is_lower, is_digit, is_upper in *.
  apply andb_true_iff in Hu as [H1 H2]. apply N.leb_le in H1, H2.
  apply orb_true_iff. left. apply andb_true_iff.
  rewrite !N.leb_le. lia.
Qed.

(** X3.  The slug is empty exactly when the lowercased title has no unit in
    [a-z0-9]; for a title of ASCII units, exactly when it has no ASCII
    letter or digit. *)
Theorem slugify_empty_iff
  (lower_ext : jsstring -> N -> jsstring -> jsstring) (title : jsstring) :
  (slugify lower_ext title = []
   <-> Forall (fun c => is_az09 c = false) (toLowerCase lower_ext title))
  /\ (Forall (fun c => c < 128) title ->
      (slugify lower_ext title = []
       <-> Forall (fun c => is_alnum c = false) title)).
Proof.
  assert (slugify lower_ext title = []
          <-> Forall (fun c => is_az09 c = false)
                (toLowerCase lower_ext title)) as H.
  { rewrite slugify_runs, <- az09_runs_nil. split.
    - apply join_hyphen_nil, az09_runs_words.
    - by intros ->. }
  split; [exact H|]. intros Hascii. rewrite H. unfold toLowerCase.
  rewrite toLowerCase_from_ascii by done. rewrite List.Forall_map.
  split; apply List.Forall_impl; intros c; by rewrite is_az09_ascii_lower.
Qed.

Lemma slugify_empty_iff_witness :
  slugify ascii_only (js " -- !? ") = [].
Proof.
  apply (proj2 (slugify_empty_iff ascii_only (js " -- !? "))).
  - repeat (apply List.Forall_cons; [reflexivity|]). apply List.Forall_nil.
  - repeat (apply List.Forall_cons; [reflexivity|]). apply List.Forall_nil.
Defined.

(** X4.  Two titles get the same slug exactly when their lowercased forms
    have the same runs of [a-z0-9].  In particular two titles of ASCII units
    that differ only in the case of letters get the same slug. *)
Theorem slugify_same_slug
  (lower_ext : jsstring -> N -> jsstring -> jsstring) (t1 t2 : jsstring) :
  (slugify lower_ext t1 = slugify lower_ext t2
   <-> az09_runs (toLowerCase lower_ext t1)
       = az09_runs (toLowerCase lower_ext t2))
  /\ (Forall (fun c => c < 128) t1 -> Forall (fun c => c < 128) t2 ->
      map ascii_lower t1 = map ascii_lower t2 ->
      slugify lower_ext t1 = slugify lower_ext t2).
Proof.
  assert (slugify lower_ext t1 = slugify lower_ext t2
          <-> az09_runs (toLowerCase lower_ext t1)
              = az09_runs (toLowerCase lower_ext t2)) as H.
  { rewrite !slugify_runs. split; [|by intros ->].
    apply join_hyphen_inj; apply az09_runs_words. }
  split; [exact H|]. intros H1 H2 E. apply H. unfold toLowerCase.
  by rewrite !toLowerCase_from_ascii, E.
Qed.

Lemma slugify_same_slug_witness :
  slugify ascii_only (js "React Summit") = slugify ascii_only (js "REACT summit").
Proof.
  apply (proj2 (slugify_same_slug ascii_only (js "React Summit")
                  (js "REACT summit"))).
  - repeat (apply List.Forall_cons; [reflexivity|]). apply List.Forall_nil.
  - repeat (apply List.Forall_cons; [reflexivity|]). apply List.Forall_nil.
  - reflexivity.
Defined.

(** X5.  The normalized time is canonical: two accepted inputs normalize to
    the same string exactly when they denote the same hour and minute. *)
Theorem normalizeTime_canonical (s1 s2 r1 r2 : jsstring) (h1 m1 h2 m2 : N) :
  normalizeTime s1 = Ok r1 -> normalizeTime s2 = Ok r2 ->
  is_time_text (trim s1) h1 m1 -> is_time_text (trim s2) h2 m2 ->
  (r1 = r2 <-> h1 = h2 /\ m1 = m2).
Proof.
  intros (a1 & b1 & T1 & Ha1 & Hb1 & ->)%normalizeTime_ok
         (a2 & b2 & T2 & Ha2 & Hb2 & ->)%normalizeTime_ok U1 U2.
  destruct (match_time_unique _ _ _ _ _ T1 U1) as [-> ->].
  destruct (match_time_unique _ _ _ _ _ T2 U2) as [-> ->].
  split.
  - by apply time_text_inj.
  - by intros [-> ->].
Qed.

Lemma normalizeTime_canonical_witness :
  js "09:05" = js "09:05" <-> 9 = 9 /\ 5 = 5.
Proof.
  apply (normalizeTime_canonical (js "9:05") (js " 09:05") _ _ 9 5 9 5).
  - reflexivity.
  - reflexivity.
  - exists [57], [48; 53]. split; [reflexivity|]. split; [by left|].
    split; [reflexivity|].
    split; [repeat (apply List.Forall_cons; [reflexivity|]); apply List.Forall_nil|].
    split; [repeat (apply List.Forall_cons; [reflexivity|]); apply List.Forall_nil|].
    done.
  - exists [48; 57], [48; 53]. split; [reflexivity|]. split; [by right|].
    split; [reflexivity|].
    split; [repeat (apply List.Forall_cons; [reflexivity|]); apply List.Forall_nil|].
    split; [repeat (apply List.Forall_cons; [reflexivity|]); apply List.Forall_nil|].
    done.
Defined.

(** X6.  Normalized times sort as times: comparing two results as strings,
    unit by unit, gives the order of the times of day they denote. *)
Theorem normalizeTime_order (s1 s2 r1 r2 : jsstring) (h1 m1 h2 m2 : N) :
  normalizeTime s1 = Ok r1 -> normalizeTime s2 = Ok r2 ->
  is_time_text (trim s1) h1 m1 -> is_time_text (trim s2) h2 m2 ->
  (string_lt r1 r2 = true <-> 60 * h1 + m1 < 60 * h2 + m2).
Proof.
  intros (a1 & b1 & T1 & Ha1 & Hb1 & ->)%normalizeTime_ok
         (a2 & b2 & T2 & Ha2 & Hb2 & ->)%normalizeTime_ok U1 U2.
  destruct (match_time_unique _ _ _ _ _ T1 U1) as [-> ->].
  destruct (match_time_unique _ _ _ _ _ T2 U2) as [-> ->].
  by apply time_text_lt.
Qed.

Lemma normalizeTime_order_witness :
  string_lt (js "09:05") (js "10:00") = true <-> 60 * 9 + 5 < 60 * 10 + 0.
Proof.
  apply (normalizeTime_order (js "9:05") (js "10:00") _ _ 9 5 10 0).
  - reflexivity.
  - reflexivity.
  - exists [57], [48; 53]. split; [reflexivity|]. split; [by left|].
    split; [reflexivity|].
    split; [repeat (apply List.Forall_cons; [reflexivity|]); apply List.Forall_nil|].
    split; [repeat (apply List.Forall_cons; [reflexivity|]); apply List.Forall_nil|].
    done.
  - exists [49; 48], [48; 48]. split; [reflexivity|]. split; [by right|].
    split; [reflexivity|].
    split; [repeat (apply List.Forall_cons; [reflexivity|]); apply List.Forall_nil|].
    split; [repeat (apply List.Forall_cons; [reflexivity|]); apply List.Forall_nil|].
    done.
Defined.
End EventExtras.

Section DateExtras.
Import JS JSDate Hook EventModel Schema Shapes Samples.
Local Open Scope Z_scope.

(** X7.  Every result of [normalizeDate] is the text of a day that exists:
    a year between -271821 and 275760, a month 01..12 and a day of that
    month.  For years 0000..9999 it has the form YYYY-MM-DD; otherwise the
    year is a sign and six digits and the text has 13 units. *)
Theorem normalizeDate_names_a_day
  (host_parse : jsstring -> option Z) (s r : jsstring) :
  normalizeDate host_parse s = Ok r ->
  exists y m d,
    r = date_text y m d
    /\ -271821 <= y <= 275760 /\ 1 <= m <= 12
    /\ 1 <= d <= DaysInMonth y (m - 1)
    /\ (0 <= y <= 9999 -> is_YYYY_MM_DD r = true)
    /\ (y < 0 \/ 9999 < y -> length r = 13%nat).
Proof.
  intros (t & Ht & ->)%normalizeDate_ok.
  apply Date_of_string_range in Ht.
  exists (YearFromTime t), (MonthFromTime t + 1), (DateFromTime t).
  pose proof (YearFromTime_range t Ht).
  pose proof (MonthFromTime_range t).
  pose proof (DateFromTime_range t) as Hd.
  replace (MonthFromTime t + 1 - 1) with (MonthFromTime t) by lia.
  split_and!; try done; try lia.
  - apply date_string_form.
  - intros Hy. rewrite date_string_text. unfold date_text, year_string.
    destruct (Z.leb_spec 0 (YearFromTime t));
      [destruct (Z.leb_spec (YearFromTime t) 9999); [lia|]|];
      simpl andb; cbv iota;
      rewrite !length_app; cbn [length]; rewrite !digits_length; done.
Qed.

Lemma normalizeDate_names_a_day_witness :
  exists y m d, js "2024-02-01" = date_text y m d /\ 1 <= m <= 12.
Proof.
  destruct (normalizeDate_names_a_day no_other_format (js "2024-02")
              (js "2024-02-01") eq_refl)
    as (y & m & d & E & _ & Hm & _).
  exists y, m, d. split; [exact E|exact Hm].
Defined.

(** X8.  [normalizeDate] rounds down to the start of the UTC day: its
    result, read again, is midnight UTC of the day of the instant the input
    denotes, never later than that instant and less than a day before. *)
Theorem normalizeDate_truncates
  (host_parse : jsstring -> option Z) (s : jsstring) (t : Z) :
  Date_of_string host_parse s = Some t ->
  exists r,
    normalizeDate host_parse s = Ok r
    /\ Date_of_string host_parse r = Some (msPerDay * (t / msPerDay))
    /\ msPerDay * (t / msPerDay) <= t < msPerDay * (t / msPerDay) + msPerDay.
Proof.
  intros Ht. exists (date_string t). split_and!.
  - apply normalizeDate_ok. eauto.
  - rewrite Date_of_string_date_string by (by eapply Date_of_string_range).
    unfold MakeDate, Day. f_equal. lia.
  - unfold msPerDay. lia.
  - unfold msPerDay. lia.
Qed.

Lemma normalizeDate_truncates_witness :
  exists r,
    normalizeDate no_other_format (js "1970-01-02") = Ok r
    /\ Date_of_string no_other_format r = Some 86400000.
Proof.
  destruct (normalizeDate_truncates no_other_format (js "1970-01-02")
              86400000 eq_refl) as (r & H1 & H2 & _).
  exists r. split; [exact H1|exact H2].
Defined.

Lemma MakeDate_abs n :
  (8640000000000000 <? Z.abs (MakeDate n 0)) = negb (Z.abs n <=? 100000000).
Proof.
  unfold MakeDate, msPerDay.
  destruct (Z.ltb_spec 8640000000000000 (Z.abs (n * 86400000 + 0)));
    destruct (Z.leb_spec (Z.abs n) 100000000); simpl; lia.
Qed.

(** X9.  On the text of a day that exists, with no more than six year
    digits, [normalizeDate] does not depend on the host: it returns the text
    itself when the day lies within 100,000,000 days of 1 January 1970, and
    fails with the date error otherwise. *)
Theorem normalizeDate_date_only
  (host_parse : jsstring -> option Z) (y m d : Z) :
  -999999 <= y <= 999999 -> 1 <= m <= 12 ->
  1 <= d <= DaysInMonth y (m - 1) ->
  normalizeDate host_parse (date_text y m d)
  = if Z.abs (MakeDay y (m - 1) d) <=? 100000000
    then Ok (date_text y m d) else Throw date_error.
Proof.
  intros Hy Hm Hd. unfold normalizeDate, Date_of_string, Date_parse.
  rewrite parse_date_only_text by done. unfold TimeClip.
  rewrite MakeDate_abs.
  destruct (Z.abs (MakeDay y (m - 1) d) <=? 100000000); [|done].
  simpl negb. cbv iota. rewrite split_head_toISOString, date_string_text.
  destruct (fields_of_MakeDay y (m - 1) d ltac:(lia) Hd) as (-> & -> & ->).
  by replace (m - 1 + 1) with m by lia.
Qed.

Lemma normalizeDate_date_only_witness :
  normalizeDate no_other_format (date_text 2024 2 29)
  = if Z.abs (MakeDay 2024 (2 - 1) 29) <=? 100000000
    then Ok (date_text 2024 2 29) else Throw date_error.
Proof.
  apply normalizeDate_date_only; vm_compute; split; discriminate.
Defined.
End DateExtras.

Section HookExtras.
Import JS JSDate Hook EventModel Schema Shapes Samples.
Local Open Scope N_scope.

(** X11.  The outcome of the hook on a document whose title, date and
    time hold strings, by the first step that fails.  It succeeds exactly
    when every step it has to take does.  It fails with the slug error
    exactly when a slug is called for (the document is new or its title
    modified) and none can be generated.  It fails with the date error
    exactly when the slug step passes, the date is modified and does not
    normalize.  It fails with a given one of the two time errors exactly
    when the slug and date steps pass, the time is modified and
    [normalizeTime] throws that error. *)
Theorem preValidate_outcome
  (lower_ext : jsstring -> N -> jsstring -> jsstring)
  (host_parse : jsstring -> option Z) (d : EventDocument) :
  ((exists d', preValidate lower_ext host_parse d = (d', Ok tt))
   <-> (isNew d || isModified "title" d = true ->
        slugify lower_ext (title d) <> [])
       /\ (isModified "date" d = true ->
           exists v, normalizeDate host_parse (date d) = Ok v)
       /\ (isModified "time" d = true ->
           exists v, normalizeTime (time d) = Ok v))
  /\ ((exists d', preValidate lower_ext host_parse d = (d', Throw slug_error))
      <-> isNew d || isModified "title" d = true
          /\ slugify lower_ext (title d) = [])
  /\ ((exists d', preValidate lower_ext host_parse d = (d', Throw date_error))
      <-> (isNew d || isModified "title" d = true ->
           slugify lower_ext (title d) <> [])
          /\ isModified "date" d = true
          /\ normalizeDate host_parse (date d) = Throw date_error)
  /\ (forall e, e = format_error \/ e = range_error ->
        ((exists d', preValidate lower_ext host_parse d = (d', Throw e))
         <-> (isNew d || isModified "title" d = true ->
              slugify lower_ext (title d) <> [])
             /\ (isModified "date" d = true ->
                 exists v, normalizeDate host_parse (date d) = Ok v)
             /\ isModified "time" d = true
             /\ normalizeTime (time d) = Throw e)).
Proof.
  split_and!.
  - apply preValidate_succeeds_iff.
  - split.
    + intros (d' & E).
      destruct (preValidate_throw_cases _ _ _ _ _ E)
        as [(_ & H)|[(He & _)|([He|He] & _)]]; done.
    + intros (Hr & Hs). exists d. by apply preValidate_slug_fails.
  - split.
    + intros (d' & E).
      destruct (preValidate_throw_cases _ _ _ _ _ E)
        as [(He & _)|[(_ & H)|([He|He] & _)]]; done.
    + intros (Hs & Hm & He). by apply preValidate_date_throws.
  - intros e He. split.
    + intros (d' & E).
      destruct (preValidate_throw_cases _ _ _ _ _ E)
        as [(-> & _)|[(-> & _)|(_ & H)]]; [by destruct He|by destruct He|done].
    + intros (Hs & Hd & Hm & Ht). by apply preValidate_time_throws.
Qed.

(** X13.  The required-string validator accepts exactly the strings with a
    unit that is not whitespace: the empty string and strings of whitespace
    alone are rejected. *)
Theorem required_string_rejects_blank (value : jsstring) :
  (required_string_validator value = true
   <-> exists c, In c value /\ is_whitespace c = false)
  /\ (forallb is_whitespace value = true ->
      required_string_validator value = false).
Proof.
  split; [apply required_string_validator_iff|].
  intros H. unfold required_string_validator.
  by rewrite (proj2 (trim_nil_iff value) H).
Qed.

Lemma required_string_rejects_blank_witness :
  required_string_validator [32; 9; 160; 10] = false.
Proof.
  apply (proj2 (required_string_rejects_blank [32; 9; 160; 10])).
  reflexivity.
Defined.
End HookExtras.

Section HookWitnesses.
Import JS JSDate Hook EventModel Schema Shapes Samples.
Local Open Scope N_scope.

(** The sample Event after the hook has run, read back as a stored document
    of which only the title is marked modified. *)
Lemma preValidate_idempotent_witness :
  let d1 := fst (preValidate ascii_only no_other_format sample_event) in
  let d2 := {| title := title d1; slug := slug d1;
               description := description d1; overview := overview d1;
               image := image d1; venue := venue d1; location := location d1;
               date := date d1; time := time d1; mode := mode d1;
               audience := audience d1; agenda := agenda d1;
               organizer := organizer d1; tags := tags d1; isNew := false;
               modifiedPaths := {[ "title"%string ]} |} in
  exists d3,
    preValidate ascii_only no_other_format d2 = (d3, Ok tt)
    /\ slug d3 = slug d2 /\ date d3 = date d2 /\ time d3 = time d2
    /\ same_other_fields d2 d3.
Proof.
  intros d1 d2.
  apply (preValidate_idempotent ascii_only no_other_format
           sample_event d1 tt d2).
  - vm_compute. reflexivity.
  - reflexivity.
  - reflexivity.
  - reflexivity.
  - reflexivity.
  - intros _. vm_compute. reflexivity.
  - vm_compute. discriminate.
  - vm_compute. discriminate.
Defined.

(** The sample Event with an hour that does not exist. *)
Lemma preValidate_outcome_witness :
  let d := {| title := js "React Summit 2025"; slug := [];
              description := js "d"; overview := js "o"; image := js "i";
              venue := js "v"; location := js "l"; date := js "2025-06";
              time := js "24:00"; mode := js "m"; audience := js "a";
              agenda := [js "x"]; organizer := js "g"; tags := [js "t"];
              isNew := true;
              modifiedPaths :=
                {[ "title"%string; "date"%string; "time"%string ]} |} in
  exists d', preValidate ascii_only no_other_format d = (d', Throw range_error).
Proof.
  intros d.
  apply (proj2 (proj2 (proj2 (proj2
           (preValidate_outcome ascii_only no_other_format d)))
           range_error (or_intror eq_refl))).
  split_and!.
  - intros _. vm_compute. discriminate.
  - intros _. exists (js "2025-06-01"). vm_compute. reflexivity.
  - vm_compute. reflexivity.
  - vm_compute. reflexivity.
Defined.

Lemma preValidate_writes_required_witness :
  let d1 := fst (preValidate ascii_only no_other_format sample_event) in
  required_string_validator (slug d1) = true.
Proof.
  intros d1.
  apply (proj1 (preValidate_writes_required ascii_only no_other_format
                  sample_event d1 tt ltac:(vm_compute; reflexivity))).
  reflexivity.
Defined.
End HookWitnesses.

Section BookingExtras.
Import JS Hook BookingModel Schema.
Local Open Scope N_scope.

(** X14.  The email pattern accepts exactly the strings of the shape
    local [@] domain [.] rest, where the three parts are non-empty and hold
    neither whitespace nor [@]. *)
Theorem EMAIL_REGEX_shape (value : jsstring) :
  EMAIL_REGEX_test value = true
  <-> exists l d1 d2,
        value = l ++ [64] ++ d1 ++ [46] ++ d2
        /\ l <> [] /\ d1 <> [] /\ d2 <> []
        /\ forallb not_space_or_at l = true
        /\ forallb not_space_or_at d1 = true
        /\ forallb not_space_or_at d2 = true.
Proof. apply EMAIL_REGEX_test_spec. Qed.

Lemma EMAIL_REGEX_shape_witness :
  EMAIL_REGEX_test (js "ada@example.org") = true.
Proof.
  apply (proj2 (EMAIL_REGEX_shape (js "ada@example.org"))).
  exists (js "ada"), (js "example"), (js "org").
  repeat split; discriminate.
Defined.

(** X15.  An accepted email address has exactly one [@], no whitespace and
    at least five units; so a value with surrounding spaces, with two [@] or
    with none is rejected. *)
Theorem EMAIL_REGEX_one_at (value : jsstring) :
  EMAIL_REGEX_test value = true ->
  count_unit 64 value = 1%nat
  /\ Forall (fun c => is_whitespace c = false) value
  /\ (5 <= length value)%nat.
Proof.
  intros (l & d1 & d2 & -> & Hl & Hd1 & Hd2 & Pl & P1 & P2)%EMAIL_REGEX_test_spec.
  split_and!.
  - rewrite !count_unit_app.
    rewrite (count_unit_class l), (count_unit_class d1),
      (count_unit_class d2) by done.
    reflexivity.
  - repeat (apply Forall_app; split); try (by apply class_not_ws);
      by apply List.Forall_cons.
  - rewrite !length_app. simpl.
    destruct l; [done|]. destruct d1; [done|]. destruct d2; [done|].
    simpl. lia.
Qed.

Lemma EMAIL_REGEX_one_at_witness :
  count_unit 64 (js "ada@example.org") = 1%nat.
Proof.
  apply (proj1 (EMAIL_REGEX_one_at (js "ada@example.org") eq_refl)).
Defined.
End BookingExtras.

Section CacheExtras.
Import JS Mongodb Trace.

(** X17.  The connection is opened by the first call of
    [connectToDatabase] and by nothing else: as long as no call has been
    made, whatever else happened, no attempt has been started and the cache
    is empty; from the first call on, in every reachable state, there is
    exactly one attempt and the cache holds its promise. *)
Theorem connect_on_first_call (tr : list event) (w : process) :
  run start tr = Some w ->
  (calls_in tr = 0%nat ->
     connects w = [] /\ cached w = {| conn := None; promise := None |})
  /\ ((0 < calls_in tr)%nat ->
      length (connects w) = 1%nat /\ promise (cached w) = Some 0%nat).
Proof.
  intros Hrun.
  pose proof (cache_inv_run tr _ _ cache_inv_start Hrun) as Hw.
  pose proof (connects_run tr _ _ cache_inv_start Hrun) as Hc.
  pose proof (inv_promise _ Hw) as Hp.
  split.
  - intros H0. rewrite H0 in Hc. simpl in Hc.
    destruct (connects w) eqn:El; [|done]. split; [done|].
    destruct (cached w) as [cn pr] eqn:Ew. simpl in Hp. subst pr.
    destruct cn as [m|]; [|done].
    pose proof (inv_conn _ Hw m) as Hm. rewrite Ew, El in Hm.
    by specialize (Hm eq_refl).
  - intros Hpos. destruct (calls_in tr); [lia|]. simpl in Hc.
    split; [done|]. rewrite Hp. by destruct (connects w).
Qed.

Lemma connect_on_first_call_witness :
  exists w,
    run start [Reload; Call 1; Call 2; Settle 0 (Fulfilled 7); Resume 2]
    = Some w
    /\ length (connects w) = 1%nat /\ promise (cached w) = Some 0%nat.
Proof.
  eexists. split; [vm_compute; reflexivity|].
  apply (proj2 (connect_on_first_call
           [Reload; Call 1; Call 2; Settle 0 (Fulfilled 7); Resume 2]
           _ ltac:(vm_compute; reflexivity))).
  vm_compute. lia.
Defined.

(** X18.  Once a caller has been given the connection, every later call
    returns it at once: the call finishes in the step it is made, nobody is
    suspended and no connection attempt is started. *)
Theorem connect_fast_path
  (tr : list event) (w : process) (c0 c : caller) (m : Mongoose) :
  run start tr = Some w -> In (c0, Fulfilled m) (completed w) ->
  step w (Call c)
  = Some {| cached := cached w; connects := connects w;
            awaiting := awaiting w;
            completed := completed w ++ [(c, Fulfilled m)] |}.
Proof.
  intros Hrun Hin.
  pose proof (delivered_cached_run tr _ _ cache_inv_start
                delivered_cached_start Hrun) as Hd.
  simpl. unfold call. by rewrite (Hd _ _ Hin).
Qed.

Lemma connect_fast_path_witness :
  exists w,
    run start [Call 1; Settle 0 (Fulfilled 7); Resume 1] = Some w
    /\ step w (Call 2)
       = Some {| cached := cached w; connects := connects w;
                 awaiting := awaiting w;
                 completed := completed w ++ [(2, Fulfilled 7)] |}.
Proof.
  eexists. split; [vm_compute; reflexivity|].
  apply (connect_fast_path [Call 1; Settle 0 (Fulfilled 7); Resume 1] _ 1 2 7).
  - vm_compute. reflexivity.
  - left. reflexivity.
Defined.

(** X19.  Nobody is answered before the driver settles the attempt: while
    there is no attempt or it is pending, no call has finished, no
    connection is cached and no suspended call can resume. *)
Theorem no_answer_before_settlement (tr : list event) (w : process) :
  run start tr = Some w ->
  connects w = [] \/ connects w = [Pending] ->
  completed w = [] /\ conn (cached w) = None
  /\ forall c, step w (Resume c) = None.
Proof.
  intros Hrun Hc.
  pose proof (cache_inv_run tr _ _ cache_inv_start Hrun) as Hw.
  split_and!.
  - destruct (completed w) as [|[c o] l] eqn:E; [done|].
    assert (In (c, o) (completed w)) as Hin by (rewrite E; by left).
    apply (inv_completed _ Hw) in Hin. destruct Hc; congruence.
  - destruct (conn (cached w)) as [m|] eqn:E; [|done].
    apply (inv_conn _ Hw) in E. destruct Hc; congruence.
  - intros c. simpl. unfold resume.
    destruct (take_awaiting c (awaiting w)) as [[p rest]|] eqn:Et; [|done].
    apply take_awaiting_In in Et as [Hin _].
    destruct (inv_awaiting _ Hw _ _ Hin) as [-> Hne].
    destruct Hc as [Hc|Hc]; [done|]. by rewrite Hc.
Qed.

Lemma no_answer_before_settlement_witness :
  exists w,
    run start [Call 1; Call 2; Reload; Call 3] = Some w
    /\ completed w = [] /\ step w (Resume 2) = None.
Proof.
  eexists. split; [vm_compute; reflexivity|].
  destruct (no_answer_before_settlement [Call 1; Call 2; Reload; Call 3] _
              ltac:(vm_compute; reflexivity) ltac:(right; reflexivity))
    as (H1 & _ & H2).
  split; [exact H1|exact (H2 2)].
Defined.
End CacheExtras.
